(** * MTProthon: the TL primitive codecs of [mtprothon/type_language/primitives.py]

    A shallow embedding of the Python module and the properties of its
    wire format.  Python [int] is [Z], [bytes] is [list byte], a
    [BytesIO] is a buffer with a read position, an exception is a
    [Raise] result, and a classmethod [deserialize(data)] is a function
    from the cursor to a result and the cursor after the call. *)

From Stdlib Require Import ZArith List Lia Bool.
From Stdlib Require Import Strings.Byte.
From stdpp Require Import base list gmap.

Local Open Scope Z_scope.

(** ** Bytes and Python integers *)

Abbreviation bytes := (list byte).

Definition Z_of_byte (b : byte) : Z := Z.of_N (Byte.to_N b).

Definition byte_of_Z (z : Z) : byte :=
  match Byte.of_N (Z.to_N (z mod 256)) with
  | Some b => b
  | None => x00
  end.

(** The exceptions the module can raise; they all come from builtins. *)
Inductive exn : Type :=
  | OverflowError       (* int.to_bytes: the value does not fit *)
  | ValueError          (* bytes([n]): n not in range(256) *)
  | StructError         (* struct.unpack: buffer of the wrong size *)
  | AttributeError      (* bytes has no attribute encode *)
  | UnicodeEncodeError  (* str.encode: surrogates not allowed *)
  | NoSuchObject.       (* model only: a reference that is not in the store *)

Inductive result (A : Type) : Type :=
  | Ok (a : A)
  | Raise (e : exn).
Arguments Ok {A} a.
Arguments Raise {A} e.

Definition bind_result {A B} (r : result A) (k : A -> result B) : result B :=
  match r with
  | Ok a => k a
  | Raise e => Raise e
  end.

(** [int.from_bytes(bs, byteorder="little")], unsigned. *)
Fixpoint from_bytes_le (bs : bytes) : Z :=
  match bs with
  | [] => 0
  | b :: t => Z_of_byte b + 256 * from_bytes_le t
  end.

(** [int.from_bytes(bs, byteorder="little", signed=signed)]: any length
    is accepted, the empty string included; when [signed], the top bit
    of the last byte is the sign. *)
Definition from_bytes (bs : bytes) (signed : bool) : Z :=
  let u := from_bytes_le bs in
  let nbits := 8 * Z.of_nat (length bs) in
  if signed && Z.testbit u (nbits - 1) then u - 2 ^ nbits else u.

(** The [n] low bytes of [v], least significant first (two's complement
    for a negative [v]). *)
Fixpoint to_bytes_le (v : Z) (n : nat) : bytes :=
  match n with
  | O => []
  | S n' => byte_of_Z v :: to_bytes_le (v / 256) n'
  end.

(** [v.to_bytes(n, byteorder="little", signed=signed)]: OverflowError
    when [v] is negative and unsigned, or needs more than [n] bytes. *)
Definition to_bytes (v : Z) (n : nat) (signed : bool) : result bytes :=
  let m := 2 ^ (8 * Z.of_nat n) in
  let fits := if signed then (- m <=? 2 * v) && (2 * v <? m)
              else (0 <=? v) && (v <? m) in
  if fits then Ok (to_bytes_le v n) else Raise OverflowError.

(** [bytes(l)] for a list of ints. *)
Fixpoint bytes_of_ints (l : list Z) : result bytes :=
  match l with
  | [] => Ok []
  | z :: t =>
      if (0 <=? z) && (z <? 256)
      then bind_result (bytes_of_ints t) (fun bs => Ok (byte_of_Z z :: bs))
      else Raise ValueError
  end.

(** ** The read cursor: [io.BytesIO] *)

Record BytesIO : Type := mkBytesIO { buf : bytes; pos : nat }.

(** The bytes from the position to the end of the buffer. *)
Definition remaining (d : BytesIO) : bytes := drop (pos d) (buf d).

Definition advance (d : BytesIO) (k : nat) : BytesIO :=
  {| buf := buf d; pos := (pos d + k)%nat |}.

(** A computation on the cursor: the cursor is mutated in place, so it
    is threaded through also when the call raises. *)
Definition M (A : Type) : Type := BytesIO -> result A * BytesIO.

Definition ret {A} (a : A) : M A := fun d => (Ok a, d).

Definition bind {A B} (m : M A) (k : A -> M B) : M B :=
  fun d =>
    match m d with
    | (Ok a, d') => k a d'
    | (Raise e, d') => (Raise e, d')
    end.

Notation "x <-- m ;; k" := (bind m (fun x => k))
  (at level 100, m at next level, right associativity).

(** [data.read(size)]: at most [size] bytes, fewer at the end of the
    buffer, everything left when [size] is negative; never an error. *)
Definition read (size : Z) : M bytes :=
  fun d =>
    let avail := remaining d in
    let k := if size <? 0 then length avail
             else Nat.min (Z.to_nat size) (length avail) in
    (Ok (take k avail), advance d k).

(** ** The TL objects *)

(** Modelled from the spec: the base class [TLObject] lives in
    [tlobject.py], which is not among the sources; the spec binds one
    value to each object (its backing field) and every method of this
    module reads it as [self.value], so an object is a record with that
    one field. *)
Record TLObject (V : Type) : Type := mkTLObject { value : V }.
Arguments mkTLObject {V} value.
Arguments value {V} t.

(** *** [Int], [Long], [Int128], [Int256] *)

(** The four classes share [serialize] and [deserialize] by inheritance
    and differ in the class attribute [LENGTH]. *)
Inductive IntClass : Type := Int | Long | Int128 | Int256.

Definition LENGTH (cls : IntClass) : nat :=
  match cls with
  | Int => 4
  | Long => 8
  | Int128 => 16
  | Int256 => 32
  end%nat.

Definition Int_serialize (cls : IntClass) (self : TLObject Z) (signed : bool)
  : result bytes :=
  to_bytes (value self) (LENGTH cls) signed.

Definition Int_deserialize (cls : IntClass) (signed : bool) : M Z :=
  bs <-- read (Z.of_nat (LENGTH cls)) ;;
  ret (from_bytes bs signed).

(** *** [Double] *)

(** A Python float, as its IEEE-754 binary64 bit pattern. *)
Record float : Type := mkFloat { float_bits : Z }.

(** [struct.unpack('<d', b)] raises [struct.error] unless [b] has
    exactly 8 bytes. *)
Definition struct_unpack_d (b : bytes) : result float :=
  if (length b =? 8)%nat then Ok (mkFloat (from_bytes_le b))
  else Raise StructError.

Definition Double_deserialize : M float :=
  bs <-- read 8 ;;
  fun d => (struct_unpack_d bs, d).

(** *** [Bool] *)

Definition BOOL_TRUE : Z := 0x997275b5.
Definition BOOL_FALSE : Z := 0xbc799737.

Definition Bool_serialize (self : TLObject bool) : result bytes :=
  let constructor_id := if value self then BOOL_TRUE else BOOL_FALSE in
  Int_serialize Int (mkTLObject constructor_id) false.

Definition Bool_deserialize : M bool :=
  v <-- Int_deserialize Int false ;;
  ret (v =? BOOL_TRUE).

(** *** [Bytes] *)

Definition Bytes_serialize (self : TLObject bytes) : result bytes :=
  let len := Z.of_nat (length (value self)) in
  bind_result
    (if len <=? 253
     then bind_result (bytes_of_ints [len]) (fun p => Ok (p ++ value self))
     else bind_result (to_bytes len 3 false)
            (fun l3 => Ok ([xfe] ++ l3 ++ value self)))
    (fun result =>
       let current_length := Z.of_nat (length result) in
       let padding_needed := (4 - current_length mod 4) mod 4 in
       Ok (result ++ repeat x00 (Z.to_nat padding_needed))).

Definition Bytes_deserialize : M bytes :=
  b1 <-- read 1 ;;
  let first_byte := from_bytes b1 false in
  len <-- (if first_byte <=? 253 then ret first_byte
           else b3 <-- read 3 ;; ret (from_bytes b3 false)) ;;
  read len.

(** *** [String] *)

(** A Python [str], as its code points (each from 0 to 0x10FFFF). *)
Abbreviation str := (list Z).

(** [s.encode("utf-8")], one code point at a time; a surrogate raises
    [UnicodeEncodeError]. *)
Definition encode_char (c : Z) : result bytes :=
  if c <? 0x80 then Ok [byte_of_Z c]
  else if c <? 0x800 then
    Ok [byte_of_Z (Z.lor 0xC0 (Z.shiftr c 6));
        byte_of_Z (Z.lor 0x80 (Z.land c 0x3F))]
  else if (0xD800 <=? c) && (c <=? 0xDFFF) then Raise UnicodeEncodeError
  else if c <? 0x10000 then
    Ok [byte_of_Z (Z.lor 0xE0 (Z.shiftr c 12));
        byte_of_Z (Z.lor 0x80 (Z.land (Z.shiftr c 6) 0x3F));
        byte_of_Z (Z.lor 0x80 (Z.land c 0x3F))]
  else
    Ok [byte_of_Z (Z.lor 0xF0 (Z.shiftr c 18));
        byte_of_Z (Z.lor 0x80 (Z.land (Z.shiftr c 12) 0x3F));
        byte_of_Z (Z.lor 0x80 (Z.land (Z.shiftr c 6) 0x3F));
        byte_of_Z (Z.lor 0x80 (Z.land c 0x3F))].

Fixpoint encode_utf8 (s : str) : result bytes :=
  match s with
  | [] => Ok []
  | c :: t =>
      bind_result (encode_char c) (fun bc =>
      bind_result (encode_utf8 t) (fun bt => Ok (bc ++ bt)))
  end.

(** What the field [value] of a [String] object can hold: the text it
    was built with, or the bytes [serialize] stores there. *)
Inductive pyval : Type :=
  | VStr (s : str)
  | VBytes (b : bytes).

(** [String] objects are shared with the caller and mutated by
    [serialize], so they live in a store and are passed by reference. *)
Abbreviation loc := positive.
Abbreviation store := (gmap loc (TLObject pyval)).

Definition String_serialize (self : loc) (h : store) : result bytes * store :=
  match h !! self with
  | None => (Raise NoSuchObject, h)
  | Some o =>
      match value o with
      | VBytes _ => (Raise AttributeError, h)
      | VStr s =>
          match encode_utf8 s with
          | Raise e => (Raise e, h)
          | Ok b =>
              (* self.value = ... ; return super().serialize() *)
              (Bytes_serialize (mkTLObject b), <[self := mkTLObject (VBytes b)]> h)
          end
      end
  end.

Section StringDecode.
(** [b.decode(errors="replace")]: the builtin decoder, total. *)
Variable decode_replace : bytes -> str.

Definition String_deserialize : M str :=
  b <-- Bytes_deserialize ;;
  ret (decode_replace b).
End StringDecode.

(** *** [Vector] *)

Definition ID : Z := 0x1CB5C415.

Section VectorOf.
(** The element class [type], through its [deserialize]. *)
Context {A : Type}.
Variable type_deserialize : M A.

(** [for _ in range(n): items.append(type.deserialize(data))] *)
Fixpoint Vector_loop (n : nat) (items : list A) : M (list A) :=
  match n with
  | O => ret items
  | S n' =>
      item <-- type_deserialize ;;
      Vector_loop n' (items ++ [item])
  end.

(** [range(count)] is empty for a negative [count]. *)
Definition Vector_deserialize : M (list A) :=
  constructor <-- Int_deserialize Int true ;;
  count <-- Int_deserialize Int true ;;
  Vector_loop (Z.to_nat count) [].
End VectorOf.

Section VectorSerialize.
(** The items of the vector, through their [serialize]; a call may
    change a state [S] (the object store, for [String] items). *)
Context {T S : Type}.
Variable item_serialize : T -> S -> result bytes * S.

(** [for item in self.value: result += item.serialize()] *)
Fixpoint Vector_serialize_items (items : list T) (res : bytes) (s : S)
  : result bytes * S :=
  match items with
  | [] => (Ok res, s)
  | item :: items' =>
      match item_serialize item s with
      | (Ok b, s') => Vector_serialize_items items' (res ++ b) s'
      | (Raise e, s') => (Raise e, s')
      end
  end.

(** The constructor id and the count go through [Int(...).serialize()],
    with the default [signed=True]. *)
Definition Vector_serialize (self : TLObject (list T)) (s : S)
  : result bytes * S :=
  match Int_serialize Int (mkTLObject ID) true with
  | Raise e => (Raise e, s)
  | Ok r0 =>
      match Int_serialize Int (mkTLObject (Z.of_nat (length (value self)))) true with
      | Raise e => (Raise e, s)
      | Ok r1 => Vector_serialize_items (value self) (r0 ++ r1) s
      end
  end.
End VectorSerialize.

(** [item.serialize()] for the items that change nothing: an integer
    object (the vector passes no argument, so [signed] is [True]) and a
    [Bytes] object. *)
Definition Int_item_serialize (cls : IntClass) (item : TLObject Z) (s : unit)
  : result bytes * unit :=
  (Int_serialize cls item true, s).

Definition Bytes_item_serialize (item : TLObject bytes) (s : unit)
  : result bytes * unit :=
  (Bytes_serialize item, s).

(** ** Vocabulary of the statements *)

(** [x] is representable in [n] bytes: two's complement when [signed],
    the full unsigned range otherwise. *)
Definition representable (n : nat) (signed : bool) (x : Z) : Prop :=
  if signed
  then - 2 ^ (8 * Z.of_nat n - 1) <= x < 2 ^ (8 * Z.of_nat n - 1)
  else 0 <= x < 2 ^ (8 * Z.of_nat n).

(** A cursor placed after [before], with [after] still to be read. *)
Definition cursor_at (before after : bytes) : BytesIO :=
  {| buf := before ++ after; pos := length before |}.

(** [d'] is [d] after some reads: same buffer, the position moved
    forward and not past the end of the buffer (or not at all, when it
    was already there). *)
Definition forward_in_bounds (d d' : BytesIO) : Prop :=
  buf d' = buf d /\
  (pos d <= pos d')%nat /\
  (pos d' <= Nat.max (pos d) (length (buf d)))%nat.

(** A computation that returns without raising, whatever the cursor. *)
Definition never_raises {A} (m : M A) : Prop :=
  forall d, exists a d', m d = (Ok a, d').

(** A computation that only moves the cursor forward, within bounds. *)
Definition stays_in_bounds {A} (m : M A) : Prop :=
  forall d, forward_in_bounds d (snd (m d)).

(** [n] calls of [m] in a row, all returning: the values in call order
    and the cursor after the last call. *)
Inductive calls {A} (m : M A) : nat -> BytesIO -> list A -> BytesIO -> Prop :=
  | calls_O d : calls m O d [] d
  | calls_S n d a d1 items d' :
      m d = (Ok a, d1) ->
      calls m n d1 items d' ->
      calls m (S n) d (a :: items) d'.

(** The two length prefixes [Bytes.deserialize] tells apart, with the
    payload length each announces. *)
Inductive length_prefix : bytes -> Z -> Prop :=
  | prefix_short b :
      Z_of_byte b <= 253 ->
      length_prefix [b] (Z_of_byte b)
  | prefix_long b l0 l1 l2 :
      253 < Z_of_byte b ->
      length_prefix [b; l0; l1; l2] (from_bytes_le [l0; l1; l2]).

(** [ser] and [deser] fit together: what [ser] emits for an item,
    [deser] reads back as the item's [payload], consuming exactly that. *)
Definition reads_back {T S A} (ser : T -> S -> result bytes * S)
    (deser : M A) (payload : T -> A) : Prop :=
  forall x s bs s',
    ser x s = (Ok bs, s') ->
    forall before rest,
      deser (cursor_at before (bs ++ rest)) =
      (Ok (payload x), cursor_at (before ++ bs) rest).

(** A [String] object that [serialize] accepts: it holds a text whose
    UTF-8 encoding exists and is shorter than 2^24 bytes. *)
Definition fresh_text (h : store) (l : loc) : Prop :=
  exists s b,
    h !! l = Some (mkTLObject (VStr s)) /\
    encode_utf8 s = Ok b /\
    Z.of_nat (length b) < 16777216.

(** A [String] object that holds bytes, as after a [serialize]. *)
Definition holds_bytes (h : store) (l : loc) : Prop :=
  exists b, h !! l = Some (mkTLObject (VBytes b)).

(** The items serialized one after the other, all returning: their
    outputs in item order and the state after the last one. *)
Inductive emits {T S} (ser : T -> S -> result bytes * S)
  : list T -> S -> list bytes -> S -> Prop :=
  | emits_nil s : emits ser [] s [] s
  | emits_cons x items s b s1 outs s' :
      ser x s = (Ok b, s1) ->
      emits ser items s1 outs s' ->
      emits ser (x :: items) s (b :: outs) s'.

(** The length prefix as [Bytes.deserialize] finds it in the bytes that
    are left: how many bytes of prefix it consumes, and the payload
    length these announce.  Nothing left announces 0; a first byte of at
    most 253 is the length; any other first byte is followed by the
    length on three little-endian bytes, or on as many as are left. *)
Definition announced (left : bytes) : nat * Z :=
  match left with
  | [] => (O, 0)
  | b :: rest =>
      if Z_of_byte b <=? 253 then (1%nat, Z_of_byte b)
      else (S (Nat.min 3 (length rest)), from_bytes_le (take 3 rest))
  end.

(** ** Bytes and little-endian integers *)

Lemma Z_of_byte_range (b : byte) : 0 <= Z_of_byte b < 256.
Proof.
  unfold Z_of_byte. pose proof (Byte.to_N_bounded b). lia.
Qed.

Lemma byte_of_Z_of_byte (b : byte) : byte_of_Z (Z_of_byte b) = b.
Proof.
  unfold byte_of_Z. rewrite Z.mod_small by apply Z_of_byte_range.
  unfold Z_of_byte. rewrite N2Z.id, Byte.of_to_N. reflexivity.
Qed.

Lemma Z_of_byte_of_Z (z : Z) : Z_of_byte (byte_of_Z z) = z mod 256.
Proof.
  assert (Hr : 0 <= z mod 256 < 256) by (apply Z.mod_pos_bound; lia).
  unfold byte_of_Z, Z_of_byte.
  destruct (Byte.of_N (Z.to_N (z mod 256))) as [b|] eqn:E.
  - apply Byte.to_of_N in E. rewrite E. lia.
  - apply Byte.of_N_None_iff in E. lia.
Qed.

Lemma Z_of_byte_inj (a b : byte) : Z_of_byte a = Z_of_byte b -> a = b.
Proof.
  intros H. rewrite <- (byte_of_Z_of_byte a), <- (byte_of_Z_of_byte b).
  now rewrite H.
Qed.

Lemma from_bytes_le_range (bs : bytes) :
  0 <= from_bytes_le bs < 2 ^ (8 * Z.of_nat (length bs)).
Proof.
  induction bs as [|b t IH]; simpl from_bytes_le.
  - simpl. lia.
  - rewrite length_cons, Nat2Z.inj_succ.
    replace (8 * Z.succ (Z.of_nat (length t))) with (8 + 8 * Z.of_nat (length t)) by lia.
    rewrite Z.pow_add_r by lia. change (2 ^ 8) with 256.
    pose proof (Z_of_byte_range b). nia.
Qed.

Lemma from_bytes_le_app (a b : bytes) :
  from_bytes_le (a ++ b) =
  from_bytes_le a + 2 ^ (8 * Z.of_nat (length a)) * from_bytes_le b.
Proof.
  induction a as [|x a IH]; simpl from_bytes_le.
  - simpl. lia.
  - rewrite IH.
    rewrite length_cons, Nat2Z.inj_succ.
    replace (8 * Z.succ (Z.of_nat (length a))) with (8 + 8 * Z.of_nat (length a)) by lia.
    rewrite Z.pow_add_r by lia. change (2 ^ 8) with 256. ring.
Qed.

Lemma from_bytes_le_inj (a b : bytes) :
  length a = length b -> from_bytes_le a = from_bytes_le b -> a = b.
Proof.
  revert b. induction a as [|x a IH]; intros [|y b] Hl He; try discriminate.
  - reflexivity.
  - simpl in He, Hl.
    pose proof (Z_of_byte_range x). pose proof (Z_of_byte_range y).
    assert (Z_of_byte x = Z_of_byte y /\ from_bytes_le a = from_bytes_le b)
      as [Hx Ht] by lia.
    f_equal; [now apply Z_of_byte_inj | apply IH; [lia | assumption]].
Qed.

Lemma length_to_bytes_le (v : Z) (n : nat) : length (to_bytes_le v n) = n.
Proof.
  revert v. induction n as [|n IH]; intros v; simpl; [|rewrite IH]; reflexivity.
Qed.

Lemma from_to_bytes_le (v : Z) (n : nat) :
  from_bytes_le (to_bytes_le v n) = v mod 2 ^ (8 * Z.of_nat n).
Proof.
  revert v. induction n as [|n IH]; intros v.
  - simpl. now rewrite Z.mod_1_r.
  - cbn [to_bytes_le from_bytes_le]. rewrite IH, Z_of_byte_of_Z.
    rewrite Nat2Z.inj_succ.
    replace (8 * Z.succ (Z.of_nat n)) with (8 + 8 * Z.of_nat n) by lia.
    rewrite Z.pow_add_r by lia. change (2 ^ 8) with 256.
    rewrite Z.rem_mul_r by lia. reflexivity.
Qed.

Lemma testbit_top (u k : Z) :
  0 <= k -> 0 <= u < 2 ^ (k + 1) -> Z.testbit u k = (2 ^ k <=? u).
Proof.
  intros Hk Hu. pose proof (Z.testbit_spec' u k Hk) as Hs.
  rewrite Z.pow_add_r in Hu by lia. change (2 ^ 1) with 2 in Hu.
  assert (Hp : 0 < 2 ^ k) by (apply Z.pow_pos_nonneg; lia).
  destruct (Z.leb_spec (2 ^ k) u) as [Hle|Hlt].
  - assert (Hq : u / 2 ^ k = 1)
      by (symmetry; apply (Z.div_unique u (2 ^ k) 1 (u - 2 ^ k)); lia).
    rewrite Hq in Hs. change (1 mod 2) with 1 in Hs.
    destruct (Z.testbit u k); [reflexivity | discriminate].
  - rewrite Z.div_small in Hs by lia. change (0 mod 2) with 0 in Hs.
    destruct (Z.testbit u k); [discriminate | reflexivity].
Qed.

Lemma to_bytes_representable (x : Z) (n : nat) (signed : bool) :
  representable n signed x -> to_bytes x n signed = Ok (to_bytes_le x n).
Proof.
  unfold representable, to_bytes. intros H.
  destruct signed.
  - destruct n as [|n].
    + change (8 * Z.of_nat 0 - 1) with (-1) in H. simpl in H. lia.
    + replace (8 * Z.of_nat (S n)) with ((8 * Z.of_nat (S n) - 1) + 1) by lia.
      rewrite Z.pow_add_r by lia. change (2 ^ 1) with 2.
      set (h := 2 ^ (8 * Z.of_nat (S n) - 1)) in *.
      replace ((- (h * 2) <=? 2 * x) && (2 * x <? h * 2)) with true; [reflexivity|].
      symmetry. apply andb_true_iff. split; [apply Z.leb_le | apply Z.ltb_lt]; lia.
  - replace ((0 <=? x) && (x <? 2 ^ (8 * Z.of_nat n))) with true; [reflexivity|].
    symmetry. apply andb_true_iff. split; [apply Z.leb_le | apply Z.ltb_lt]; lia.
Qed.

Lemma to_bytes_inv (x : Z) (n : nat) (signed : bool) (bs : bytes) :
  to_bytes x n signed = Ok bs ->
  bs = to_bytes_le x n /\
  if signed then - 2 ^ (8 * Z.of_nat n) <= 2 * x < 2 ^ (8 * Z.of_nat n)
  else 0 <= x < 2 ^ (8 * Z.of_nat n).
Proof.
  unfold to_bytes. destruct signed.
  - destruct (_ && _) eqn:E; [|discriminate]. intros [= <-].
    apply andb_true_iff in E as [E1 E2].
    apply Z.leb_le in E1. apply Z.ltb_lt in E2. split; [reflexivity | lia].
  - destruct (_ && _) eqn:E; [|discriminate]. intros [= <-].
    apply andb_true_iff in E as [E1 E2].
    apply Z.leb_le in E1. apply Z.ltb_lt in E2. split; [reflexivity | lia].
Qed.

Lemma from_bytes_to_bytes_le (x : Z) (n : nat) (signed : bool) :
  representable n signed x -> from_bytes (to_bytes_le x n) signed = x.
Proof.
  unfold representable, from_bytes. intros H.
  rewrite from_to_bytes_le, length_to_bytes_le.
  destruct signed; simpl andb; cbv zeta.
  - destruct n as [|n].
    + change (8 * Z.of_nat 0 - 1) with (-1) in H. simpl in H. lia.
    + set (k := 8 * Z.of_nat (S n) - 1) in *.
      assert (Hk : 0 <= k) by (unfold k; lia).
      replace (8 * Z.of_nat (S n)) with (k + 1) by (unfold k; lia).
      assert (Hp : 2 ^ (k + 1) = 2 * 2 ^ k)
        by (rewrite Z.pow_add_r by lia; change (2 ^ 1) with 2; lia).
      assert (Hpos : 0 < 2 ^ k) by (apply Z.pow_pos_nonneg; lia).
      rewrite testbit_top by (try apply Z.mod_pos_bound; lia).
      destruct (Z_lt_le_dec x 0) as [Hneg|Hnn].
      * assert (Hm : x mod 2 ^ (k + 1) = x + 2 ^ (k + 1))
          by (symmetry; apply (Z.mod_unique x (2 ^ (k + 1)) (-1)); lia).
        rewrite Hm. destruct (Z.leb_spec (2 ^ k) (x + 2 ^ (k + 1))); lia.
      * rewrite Z.mod_small by lia.
        destruct (Z.leb_spec (2 ^ k) x); lia.
  - apply Z.mod_small. lia.
Qed.

(** ** Reading from the cursor *)

Lemma remaining_cursor_at (before after : bytes) :
  remaining (cursor_at before after) = after.
Proof. unfold remaining, cursor_at. simpl. apply drop_app_length. Qed.

Lemma take_min_length {A} (k : nat) (l : list A) :
  take (Nat.min k (length l)) l = take k l.
Proof.
  destruct (Nat.le_ge_cases k (length l)) as [H|H].
  - now rewrite Nat.min_l.
  - rewrite Nat.min_r by assumption. now rewrite !take_ge by lia.
Qed.

Lemma read_eq (size : Z) (d : BytesIO) :
  0 <= size ->
  read size d =
  (Ok (take (Z.to_nat size) (remaining d)),
   advance d (Nat.min (Z.to_nat size) (length (remaining d)))).
Proof.
  intros H. unfold read. destruct (Z.ltb_spec size 0); [lia|].
  now rewrite take_min_length.
Qed.

Lemma advance_cursor_at (before after : bytes) (k : nat) :
  advance (cursor_at before after) (Nat.min k (length after)) =
  cursor_at (before ++ take k after) (drop k after).
Proof.
  unfold advance, cursor_at. simpl. f_equal.
  - now rewrite <- app_assoc, take_drop.
  - rewrite length_app, length_take. reflexivity.
Qed.

Lemma read_cursor_at (size : Z) (before after : bytes) :
  0 <= size ->
  read size (cursor_at before after) =
  (Ok (take (Z.to_nat size) after),
   cursor_at (before ++ take (Z.to_nat size) after) (drop (Z.to_nat size) after)).
Proof.
  intros H. rewrite read_eq by assumption.
  now rewrite remaining_cursor_at, advance_cursor_at.
Qed.

Lemma read_exact (bs before rest : bytes) :
  read (Z.of_nat (length bs)) (cursor_at before (bs ++ rest)) =
  (Ok bs, cursor_at (before ++ bs) rest).
Proof.
  rewrite read_cursor_at by lia. rewrite Nat2Z.id.
  now rewrite take_app_length, drop_app_length.
Qed.

Lemma cursor_at_nil (bs : bytes) : cursor_at [] bs = mkBytesIO bs 0.
Proof. reflexivity. Qed.

Lemma cursor_at_end (bs : bytes) : cursor_at bs [] = mkBytesIO bs (length bs).
Proof. unfold cursor_at. now rewrite app_nil_r. Qed.

(** ** Fixed-width integers *)

Lemma Int_deserialize_exact (cls : IntClass) (signed : bool) (bs before rest : bytes) :
  length bs = LENGTH cls ->
  Int_deserialize cls signed (cursor_at before (bs ++ rest)) =
  (Ok (from_bytes bs signed), cursor_at (before ++ bs) rest).
Proof.
  intros Hl. unfold Int_deserialize, bind. rewrite <- Hl, read_exact. reflexivity.
Qed.

(** C4: for each of the four widths and every integer representable at
    that width (two's complement when signed, the full unsigned range
    otherwise), [serialize] returns [LENGTH] bytes and [deserialize] on
    a cursor over them, with the same signedness, returns the integer
    and leaves the cursor just after them. *)
Theorem Int_roundtrip (cls : IntClass) (signed : bool) (x : Z) :
  representable (LENGTH cls) signed x ->
  exists bs,
    Int_serialize cls (mkTLObject x) signed = Ok bs /\
    length bs = LENGTH cls /\
    Int_deserialize cls signed (mkBytesIO bs 0) = (Ok x, mkBytesIO bs (LENGTH cls)) /\
    forall before rest,
      Int_deserialize cls signed (cursor_at before (bs ++ rest)) =
      (Ok x, cursor_at (before ++ bs) rest).
Proof.
  intros Hx. exists (to_bytes_le x (LENGTH cls)).
  assert (Hl : length (to_bytes_le x (LENGTH cls)) = LENGTH cls)
    by apply length_to_bytes_le.
  assert (Hgen : forall before rest,
             Int_deserialize cls signed
               (cursor_at before (to_bytes_le x (LENGTH cls) ++ rest)) =
             (Ok x, cursor_at (before ++ to_bytes_le x (LENGTH cls)) rest)).
  { intros before rest. rewrite Int_deserialize_exact by assumption.
    now rewrite from_bytes_to_bytes_le. }
  repeat split.
  - unfold Int_serialize. simpl value. now apply to_bytes_representable.
  - exact Hl.
  - specialize (Hgen [] []). rewrite app_nil_r in Hgen.
    rewrite cursor_at_nil in Hgen. rewrite Hgen.
    simpl app. now rewrite cursor_at_end, Hl.
  - exact Hgen.
Qed.

Lemma Int_roundtrip_witness :
  representable (LENGTH Int) true (-1) /\
  exists bs,
    Int_serialize Int (mkTLObject (-1)) true = Ok bs /\
    length bs = LENGTH Int /\
    Int_deserialize Int true (mkBytesIO bs 0) = (Ok (-1), mkBytesIO bs (LENGTH Int)) /\
    forall before rest,
      Int_deserialize Int true (cursor_at before (bs ++ rest)) =
      (Ok (-1), cursor_at (before ++ bs) rest).
Proof.
  assert (H : representable (LENGTH Int) true (-1))
    by (unfold representable; simpl; lia).
  split; [exact H | exact (Int_roundtrip Int true (-1) H)].
Defined.

(** Outside the representable range [serialize] raises, so the range of
    the round trip is exactly the range of [serialize]. *)
Lemma Int_serialize_ok_representable (cls : IntClass) (signed : bool) (x : Z) (bs : bytes) :
  Int_serialize cls (mkTLObject x) signed = Ok bs ->
  representable (LENGTH cls) signed x.
Proof.
  unfold Int_serialize. simpl value. intros H.
  apply to_bytes_inv in H as [_ H]. unfold representable.
  destruct signed; [|exact H].
  assert (Hp : 2 ^ (8 * Z.of_nat (LENGTH cls)) = 2 * 2 ^ (8 * Z.of_nat (LENGTH cls) - 1)).
  { rewrite <- Z.pow_succ_r by (destruct cls; simpl; lia). f_equal. lia. }
  lia.
Qed.

(** C9: the 4-byte integer -1, signed, serializes to FF FF FF FF, and
    the byte string b"ab" to 02 61 62 00. *)
Theorem serialize_examples :
  Int_serialize Int (mkTLObject (-1)) true = Ok [xff; xff; xff; xff] /\
  Bytes_serialize (mkTLObject [x61; x62]) = Ok [x02; x61; x62; x00].
Proof. split; vm_compute; reflexivity. Qed.

(** ** Booleans *)

Lemma Bool_deserialize_four (before rest : bytes) (b0 b1 b2 b3 : byte) :
  Bool_deserialize (cursor_at before (b0 :: b1 :: b2 :: b3 :: rest)) =
  (Ok (from_bytes_le [b0; b1; b2; b3] =? BOOL_TRUE),
   cursor_at (before ++ [b0; b1; b2; b3]) rest).
Proof.
  unfold Bool_deserialize, bind.
  change (b0 :: b1 :: b2 :: b3 :: rest) with ([b0; b1; b2; b3] ++ rest).
  rewrite Int_deserialize_exact by reflexivity. reflexivity.
Qed.

(** C5: [Bool.serialize] emits the unsigned little-endian bytes of
    0x997275b5 for a true value and of 0xbc799737 otherwise, and nothing
    else; [Bool.deserialize] on four bytes returns, without raising,
    whether they decode (unsigned, little-endian) to the true constant,
    which holds for the bytes B5 75 72 99 alone: the false constant and
    every other four bytes give false. *)
Theorem Bool_codec :
  (forall v : bool,
      Bool_serialize (mkTLObject v) =
      Ok (if v then [xb5; x75; x72; x99] else [x37; x97; x79; xbc])) /\
  from_bytes [xb5; x75; x72; x99] false = BOOL_TRUE /\
  from_bytes [x37; x97; x79; xbc] false = BOOL_FALSE /\
  (forall before rest b0 b1 b2 b3,
      Bool_deserialize (cursor_at before (b0 :: b1 :: b2 :: b3 :: rest)) =
      (Ok (from_bytes [b0; b1; b2; b3] false =? BOOL_TRUE),
       cursor_at (before ++ [b0; b1; b2; b3]) rest) /\
      ((from_bytes [b0; b1; b2; b3] false =? BOOL_TRUE) = true <->
       [b0; b1; b2; b3] = [xb5; x75; x72; x99])) /\
  (forall before rest,
      Bool_deserialize (cursor_at before ([xb5; x75; x72; x99] ++ rest)) =
      (Ok true, cursor_at (before ++ [xb5; x75; x72; x99]) rest) /\
      Bool_deserialize (cursor_at before ([x37; x97; x79; xbc] ++ rest)) =
      (Ok false, cursor_at (before ++ [x37; x97; x79; xbc]) rest)).
Proof.
  split; [intros []; vm_compute; reflexivity|].
  split; [vm_compute; reflexivity|].
  split; [vm_compute; reflexivity|].
  split.
  - intros before rest b0 b1 b2 b3. split.
    + apply Bool_deserialize_four.
    + change (from_bytes [b0; b1; b2; b3] false) with (from_bytes_le [b0; b1; b2; b3]).
      rewrite Z.eqb_eq. split.
      * intros H. apply from_bytes_le_inj; [reflexivity|]. rewrite H.
        vm_compute. reflexivity.
      * intros ->. vm_compute. reflexivity.
  - intros before rest. split; apply Bool_deserialize_four.
Qed.

(** ** Byte strings: [serialize] *)

Lemma padding_aligns (c : Z) :
  0 <= (4 - c mod 4) mod 4 < 4 /\ (c + (4 - c mod 4) mod 4) mod 4 = 0.
Proof.
  split; [apply Z.mod_pos_bound; lia|].
  rewrite Z.add_mod, Z.mod_mod by lia.
  pose proof (Z.mod_pos_bound c 4 ltac:(lia)) as Hr.
  set (r := c mod 4) in *.
  assert (Hc : r = 0 \/ r = 1 \/ r = 2 \/ r = 3) by lia.
  destruct Hc as [-> | [-> | [-> | ->]]]; reflexivity.
Qed.

Lemma bytes_of_ints_single (z : Z) :
  0 <= z < 256 -> bytes_of_ints [z] = Ok [byte_of_Z z].
Proof.
  intros H. simpl.
  destruct (Z.leb_spec 0 z); [|lia]. destruct (Z.ltb_spec z 256); [|lia].
  reflexivity.
Qed.

Lemma Bytes_serialize_short (payload : bytes) :
  let len := Z.of_nat (length payload) in
  len <= 253 ->
  Bytes_serialize (mkTLObject payload) =
  Ok ([byte_of_Z len] ++ payload ++
      repeat x00 (Z.to_nat ((4 - (1 + len) mod 4) mod 4))).
Proof.
  intros len H. unfold Bytes_serialize. cbn [value]. fold len.
  destruct (Z.leb_spec len 253); [|lia].
  rewrite bytes_of_ints_single by lia. cbn [bind_result].
  rewrite length_app. cbn [length].
  replace (Z.of_nat (1 + length payload)) with (1 + len) by lia.
  now rewrite <- app_assoc.
Qed.

Lemma Bytes_serialize_long (payload : bytes) :
  let len := Z.of_nat (length payload) in
  253 < len < 16777216 ->
  Bytes_serialize (mkTLObject payload) =
  Ok ([xfe] ++ to_bytes_le len 3 ++ payload ++
      repeat x00 (Z.to_nat ((4 - (4 + len) mod 4) mod 4))).
Proof.
  intros len H. unfold Bytes_serialize. cbn [value]. fold len.
  destruct (Z.leb_spec len 253); [lia|].
  rewrite (to_bytes_representable len 3 false)
    by (unfold representable; change (2 ^ (8 * Z.of_nat 3)) with 16777216; lia).
  cbn [bind_result].
  rewrite !length_app, length_to_bytes_le. cbn [length].
  replace (Z.of_nat (1 + (3 + length payload))) with (4 + len) by lia.
  now rewrite <- !app_assoc.
Qed.

Lemma Bytes_serialize_overflow (payload : bytes) :
  16777216 <= Z.of_nat (length payload) ->
  Bytes_serialize (mkTLObject payload) = Raise OverflowError.
Proof.
  intros H. unfold Bytes_serialize, to_bytes. cbn [value].
  destruct (Z.leb_spec (Z.of_nat (length payload)) 253); [lia|].
  change (2 ^ (8 * Z.of_nat 3)) with 16777216.
  destruct (Z.ltb_spec (Z.of_nat (length payload)) 16777216); [lia|].
  rewrite andb_false_r. reflexivity.
Qed.

(** The shape of every output of [Bytes.serialize]: a length prefix of
    one or four bytes, the payload, and fewer than four zero bytes that
    bring the total to a multiple of 4. *)
Lemma Bytes_serialize_shape (payload : bytes) :
  Z.of_nat (length payload) < 16777216 ->
  exists prefix k,
    Bytes_serialize (mkTLObject payload) =
      Ok (prefix ++ payload ++ repeat x00 k) /\
    length_prefix prefix (Z.of_nat (length payload)) /\
    length prefix = (if Z.of_nat (length payload) <=? 253 then 1%nat else 4%nat) /\
    (k < 4)%nat /\
    Z.of_nat (length (prefix ++ payload ++ repeat x00 k)) mod 4 = 0.
Proof.
  intros H. set (len := Z.of_nat (length payload)) in *.
  destruct (Z.leb_spec len 253) as [Hs|Hl].
  - pose proof (padding_aligns (1 + len)) as [Hk Ha].
    exists [byte_of_Z len], (Z.to_nat ((4 - (1 + len) mod 4) mod 4)).
    split; [now apply Bytes_serialize_short|].
    assert (Hb : Z_of_byte (byte_of_Z len) = len)
      by (rewrite Z_of_byte_of_Z; apply Z.mod_small; lia).
    split; [|split; [reflexivity|split; [lia|]]].
    + rewrite <- Hb at 2. constructor. lia.
    + rewrite !length_app, repeat_length. cbn [length].
      rewrite <- Ha. f_equal. lia.
  - pose proof (padding_aligns (4 + len)) as [Hk Ha].
    exists ([xfe] ++ to_bytes_le len 3), (Z.to_nat ((4 - (4 + len) mod 4) mod 4)).
    split; [rewrite <- app_assoc; apply Bytes_serialize_long; lia|].
    assert (Hb : from_bytes_le (to_bytes_le len 3) = len).
    { rewrite from_to_bytes_le. change (2 ^ (8 * Z.of_nat 3)) with 16777216.
      apply Z.mod_small. lia. }
    split; [|split; [reflexivity|split; [lia|]]].
    + rewrite <- Hb at 2. cbn [to_bytes_le app]. constructor.
      vm_compute. reflexivity.
    + rewrite !length_app, repeat_length, length_to_bytes_le. cbn [length].
      rewrite <- Ha. f_equal. lia.
Qed.

(** C3, as the code has it: for every payload shorter than 2^24 bytes
    [Bytes.serialize] returns a length prefix, the payload and zero
    padding, of a total length divisible by 4.  (From 2^24 bytes on, the
    3-byte length conversion raises OverflowError and nothing is
    emitted.) *)
Theorem Bytes_serialize_aligned (payload : bytes) :
  Z.of_nat (length payload) < 2 ^ 24 ->
  exists prefix k,
    Bytes_serialize (mkTLObject payload) =
      Ok (prefix ++ payload ++ repeat x00 k) /\
    length_prefix prefix (Z.of_nat (length payload)) /\
    Z.of_nat (length (prefix ++ payload ++ repeat x00 k)) mod 4 = 0.
Proof.
  intros H. change (2 ^ 24) with 16777216 in H.
  destruct (Bytes_serialize_shape payload H) as (prefix & k & Hs & Hp & _ & _ & Ha).
  exists prefix, k. auto.
Qed.

Lemma Bytes_serialize_aligned_witness :
  Z.of_nat (length [x61; x62]) < 2 ^ 24 /\
  exists prefix k,
    Bytes_serialize (mkTLObject [x61; x62]) =
      Ok (prefix ++ [x61; x62] ++ repeat x00 k) /\
    length_prefix prefix (Z.of_nat (length [x61; x62])) /\
    Z.of_nat (length (prefix ++ [x61; x62] ++ repeat x00 k)) mod 4 = 0.
Proof.
  assert (H : Z.of_nat (length [x61; x62]) < 2 ^ 24) by (vm_compute; reflexivity).
  split; [exact H | exact (Bytes_serialize_aligned [x61; x62] H)].
Defined.

(** C3, as stated, fails for a payload of 2^24 zero bytes: [serialize]
    raises OverflowError, so there is no output whose length could be a
    multiple of 4. *)
Lemma Bytes_serialize_16MiB_raises :
  length (repeat x00 (Z.to_nat 16777216)) = Z.to_nat 16777216 /\
  Bytes_serialize (mkTLObject (repeat x00 (Z.to_nat 16777216))) =
  Raise OverflowError.
Proof.
  split; [apply repeat_length|].
  apply Bytes_serialize_overflow. rewrite repeat_length, Z2Nat.id; lia.
Qed.

(** Whenever [Bytes.serialize] returns, the length of what it returns is
    a multiple of 4; it returns exactly for payloads under 2^24 bytes. *)
Lemma Bytes_serialize_total_or_overflow (payload : bytes) :
  match Bytes_serialize (mkTLObject payload) with
  | Ok out =>
      Z.of_nat (length payload) < 16777216 /\ Z.of_nat (length out) mod 4 = 0
  | Raise e => e = OverflowError /\ 16777216 <= Z.of_nat (length payload)
  end.
Proof.
  destruct (Z_lt_le_dec (Z.of_nat (length payload)) 16777216) as [H|H].
  - destruct (Bytes_serialize_shape payload H) as (prefix & k & -> & _ & _ & _ & Ha).
    auto.
  - rewrite Bytes_serialize_overflow by assumption. auto.
Qed.

(** C6: a payload of exactly 253 bytes is emitted with the one-byte
    prefix FD, a payload of 254 bytes with the sentinel FE and the
    length as three little-endian bytes FE 00 00; both are followed by
    two zero bytes, for totals of 256 and 260 bytes, multiples of 4. *)
Theorem Bytes_serialize_boundary (p253 p254 : bytes) :
  length p253 = 253%nat ->
  length p254 = 254%nat ->
  Bytes_serialize (mkTLObject p253) = Ok ([xfd] ++ p253 ++ [x00; x00]) /\
  Bytes_serialize (mkTLObject p254) =
    Ok ([xfe] ++ [xfe; x00; x00] ++ p254 ++ [x00; x00]) /\
  [xfe; x00; x00] = to_bytes_le 254 3 /\
  Z.of_nat (length ([xfd] ++ p253 ++ [x00; x00])) = 256 /\
  Z.of_nat (length ([xfe] ++ [xfe; x00; x00] ++ p254 ++ [x00; x00])) = 260 /\
  256 mod 4 = 0 /\ 260 mod 4 = 0.
Proof.
  intros H3 H4. repeat split.
  - rewrite Bytes_serialize_short by lia. rewrite H3. reflexivity.
  - rewrite Bytes_serialize_long by lia. rewrite H4. reflexivity.
  - rewrite !length_app, H3. reflexivity.
  - rewrite !length_app, H4. reflexivity.
Qed.

Lemma Bytes_serialize_boundary_witness :
  let p253 := repeat x00 253 in
  let p254 := repeat x00 254 in
  Bytes_serialize (mkTLObject p253) = Ok ([xfd] ++ p253 ++ [x00; x00]) /\
  Bytes_serialize (mkTLObject p254) =
    Ok ([xfe] ++ [xfe; x00; x00] ++ p254 ++ [x00; x00]) /\
  [xfe; x00; x00] = to_bytes_le 254 3 /\
  Z.of_nat (length ([xfd] ++ p253 ++ [x00; x00])) = 256 /\
  Z.of_nat (length ([xfe] ++ [xfe; x00; x00] ++ p254 ++ [x00; x00])) = 260 /\
  256 mod 4 = 0 /\ 260 mod 4 = 0.
Proof.
  exact (Bytes_serialize_boundary (repeat x00 253) (repeat x00 254)
           eq_refl eq_refl).
Defined.

(** ** Byte strings: [deserialize] *)

Lemma read_1 (before rest : bytes) (b : byte) :
  read 1 (cursor_at before (b :: rest)) = (Ok [b], cursor_at (before ++ [b]) rest).
Proof. rewrite read_cursor_at by lia. reflexivity. Qed.

Lemma read_3 (before rest : bytes) (l0 l1 l2 : byte) :
  read 3 (cursor_at before (l0 :: l1 :: l2 :: rest)) =
  (Ok [l0; l1; l2], cursor_at (before ++ [l0; l1; l2]) rest).
Proof. rewrite read_cursor_at by lia. reflexivity. Qed.

Lemma from_bytes_unsigned (bs : bytes) : from_bytes bs false = from_bytes_le bs.
Proof. reflexivity. Qed.

Lemma from_bytes_le_single (b : byte) : from_bytes_le [b] = Z_of_byte b.
Proof. simpl. lia. Qed.

(** A first byte of at most 253 is the length. *)
Lemma Bytes_deserialize_short (before rest : bytes) (b : byte) :
  Z_of_byte b <= 253 ->
  Bytes_deserialize (cursor_at before (b :: rest)) =
  read (Z_of_byte b) (cursor_at (before ++ [b]) rest).
Proof.
  intros H. unfold Bytes_deserialize, bind at 1. rewrite read_1.
  rewrite from_bytes_unsigned, from_bytes_le_single.
  unfold bind. destruct (Z.leb_spec (Z_of_byte b) 253); [|lia].
  unfold ret. reflexivity.
Qed.

(** Any other first byte announces three length bytes. *)
Lemma Bytes_deserialize_long (before rest : bytes) (b l0 l1 l2 : byte) :
  253 < Z_of_byte b ->
  Bytes_deserialize (cursor_at before (b :: l0 :: l1 :: l2 :: rest)) =
  read (from_bytes_le [l0; l1; l2]) (cursor_at (before ++ [b; l0; l1; l2]) rest).
Proof.
  intros H. unfold Bytes_deserialize, bind at 1. rewrite read_1.
  rewrite from_bytes_unsigned, from_bytes_le_single.
  unfold bind. destruct (Z.leb_spec (Z_of_byte b) 253); [lia|].
  rewrite read_3. unfold ret. rewrite from_bytes_unsigned.
  now rewrite <- app_assoc.
Qed.

Lemma Bytes_deserialize_prefixed (before prefix payload rest : bytes) :
  length_prefix prefix (Z.of_nat (length payload)) ->
  Bytes_deserialize (cursor_at before (prefix ++ payload ++ rest)) =
  (Ok payload, cursor_at (before ++ prefix ++ payload) rest).
Proof.
  intros Hp. remember (Z.of_nat (length payload)) as n eqn:Hn.
  destruct Hp as [b Hb | b l0 l1 l2 Hb].
  - cbn [app]. rewrite Bytes_deserialize_short by assumption.
    rewrite Hn, read_exact. now rewrite <- app_assoc.
  - cbn [app]. rewrite Bytes_deserialize_long by assumption.
    rewrite Hn, read_exact. now rewrite <- app_assoc.
Qed.

Lemma byte_above_253 (b : byte) : 253 < Z_of_byte b <-> b = xfe \/ b = xff.
Proof.
  split.
  - intros H. destruct b; vm_compute in H; try discriminate; auto.
  - intros [-> | ->]; reflexivity.
Qed.

Lemma length_prefix_bound (prefix : bytes) (n : Z) :
  length_prefix prefix n -> 0 <= n < 16777216.
Proof.
  intros [b Hb | b l0 l1 l2 Hb].
  - pose proof (Z_of_byte_range b). lia.
  - apply (from_bytes_le_range [l0; l1; l2]).
Qed.

(** C7: on a cursor holding a length prefix that announces [n] bytes,
    then [n] payload bytes, then anything else, [Bytes.deserialize]
    returns the payload and stops: the position has advanced by the
    prefix length plus [n] and all that follows the payload is still
    unread.  In particular, on the output of [Bytes.serialize] the zero
    padding is left in the cursor. *)
Theorem Bytes_deserialize_leaves_padding (before prefix payload rest : bytes) :
  length_prefix prefix (Z.of_nat (length payload)) ->
  let d := cursor_at before (prefix ++ payload ++ rest) in
  (exists d',
      Bytes_deserialize d = (Ok payload, d') /\
      buf d' = buf d /\
      pos d' = (pos d + length prefix + length payload)%nat /\
      remaining d' = rest) /\
  (exists out k d',
      Bytes_serialize (mkTLObject payload) = Ok out /\
      length out =
        ((if (Z.of_nat (length payload) <=? 253)%Z then 1 else 4)
         + length payload + k)%nat /\
      Bytes_deserialize (cursor_at before (out ++ rest)) = (Ok payload, d') /\
      buf d' = before ++ out ++ rest /\
      (pos d' + k = length before + length out)%nat /\
      remaining d' = repeat x00 k ++ rest).
Proof.
  intros Hp d. split.
  - exists (cursor_at (before ++ prefix ++ payload) rest).
    split; [now apply Bytes_deserialize_prefixed|].
    split; [unfold d, cursor_at; cbn [buf]; now rewrite <- !app_assoc|].
    split; [unfold d, cursor_at; cbn [pos]; rewrite !length_app; lia|].
    apply remaining_cursor_at.
  - pose proof (length_prefix_bound _ _ Hp) as Hn.
    destruct (Bytes_serialize_shape payload ltac:(lia))
      as (prefix' & k & Hs & Hp' & Hl & Hk & _).
    exists (prefix' ++ payload ++ repeat x00 k), k,
      (cursor_at (before ++ prefix' ++ payload) (repeat x00 k ++ rest)).
    split; [exact Hs|].
    split; [rewrite !length_app, repeat_length, Hl; lia|].
    split; [rewrite <- !app_assoc; now apply Bytes_deserialize_prefixed|].
    split; [unfold cursor_at; cbn [buf]; now rewrite <- !app_assoc|].
    split; [unfold cursor_at; cbn [pos]; rewrite !length_app, repeat_length; lia|].
    apply remaining_cursor_at.
Qed.

Lemma Bytes_deserialize_leaves_padding_witness :
  length_prefix [x02] (Z.of_nat (length [x61; x62])) /\
  let d := cursor_at [] ([x02] ++ [x61; x62] ++ [x00; x07]) in
  (exists d',
      Bytes_deserialize d = (Ok [x61; x62], d') /\
      buf d' = buf d /\
      pos d' = (pos d + length [x02] + length [x61; x62])%nat /\
      remaining d' = [x00; x07]) /\
  (exists out k d',
      Bytes_serialize (mkTLObject [x61; x62]) = Ok out /\
      length out =
        ((if (Z.of_nat (length [x61; x62]) <=? 253)%Z then 1 else 4)
         + length [x61; x62] + k)%nat /\
      Bytes_deserialize (cursor_at [] (out ++ [x00; x07])) = (Ok [x61; x62], d') /\
      buf d' = [] ++ out ++ [x00; x07] /\
      (pos d' + k = length (@nil byte) + length out)%nat /\
      remaining d' = repeat x00 k ++ [x00; x07]).
Proof.
  assert (H : length_prefix [x02] (Z.of_nat (length [x61; x62])))
    by (apply (prefix_short x02); vm_compute; discriminate).
  split; [exact H|].
  exact (Bytes_deserialize_leaves_padding [] [x02] [x61; x62] [x00; x07] H).
Defined.

(** C10: a first byte above 253, which is FE or FF, selects the long
    form: the next three bytes are the little-endian unsigned length [n]
    and the result is the next [n] bytes (all that is left, if fewer).
    A first byte FF is decoded exactly as the sentinel FE. *)
Theorem Bytes_deserialize_above_253 (before rest : bytes) (b l0 l1 l2 : byte) :
  253 < Z_of_byte b ->
  let n := from_bytes [l0; l1; l2] false in
  (b = xfe \/ b = xff) /\
  Bytes_deserialize (cursor_at before (b :: l0 :: l1 :: l2 :: rest)) =
    (Ok (take (Z.to_nat n) rest),
     cursor_at (before ++ [b; l0; l1; l2] ++ take (Z.to_nat n) rest)
               (drop (Z.to_nat n) rest)) /\
  fst (Bytes_deserialize (cursor_at before (b :: l0 :: l1 :: l2 :: rest))) =
    fst (Bytes_deserialize (cursor_at before (xfe :: l0 :: l1 :: l2 :: rest))) /\
  pos (snd (Bytes_deserialize (cursor_at before (b :: l0 :: l1 :: l2 :: rest)))) =
    pos (snd (Bytes_deserialize (cursor_at before (xfe :: l0 :: l1 :: l2 :: rest)))).
Proof.
  intros Hb n.
  assert (Hn : 0 <= n) by apply (from_bytes_le_range [l0; l1; l2]).
  assert (Hgen : forall c, 253 < Z_of_byte c ->
            Bytes_deserialize (cursor_at before (c :: l0 :: l1 :: l2 :: rest)) =
            (Ok (take (Z.to_nat n) rest),
             cursor_at (before ++ [c; l0; l1; l2] ++ take (Z.to_nat n) rest)
                       (drop (Z.to_nat n) rest))).
  { intros c Hc. rewrite Bytes_deserialize_long by assumption.
    fold (from_bytes [l0; l1; l2] false). fold n.
    rewrite read_cursor_at by assumption. now rewrite <- !app_assoc. }
  assert (Hfe : 253 < Z_of_byte xfe) by reflexivity.
  split; [now apply byte_above_253|].
  split; [now apply Hgen|].
  rewrite (Hgen b Hb), (Hgen xfe Hfe). cbn [fst snd cursor_at pos].
  split; [reflexivity|]. rewrite !length_app. reflexivity.
Qed.

Lemma Bytes_deserialize_above_253_witness :
  253 < Z_of_byte xff /\
  Bytes_deserialize (cursor_at [] [xff; x02; x00; x00; x61; x62; x00; x07]) =
    (Ok [x61; x62], cursor_at [xff; x02; x00; x00; x61; x62] [x00; x07]) /\
  Bytes_deserialize (cursor_at [] [xfe; x02; x00; x00; x61; x62; x00; x07]) =
    (Ok [x61; x62], cursor_at [xfe; x02; x00; x00; x61; x62] [x00; x07]).
Proof.
  assert (H : 253 < Z_of_byte xff) by reflexivity.
  split; [exact H|]. split.
  - exact (proj1 (proj2 (Bytes_deserialize_above_253
                           [] [x61; x62; x00; x07] xff x02 x00 x00 H))).
  - reflexivity.
Defined.

(** ** Text strings *)

(** C8: [String.serialize] writes to the object it is called on.  When
    the object holds a text that UTF-8 can encode, the call stores the
    encoded bytes in its field [value]: the object the caller still
    holds has changed, no other object has, and a second [serialize] on
    it raises AttributeError, since bytes cannot be encoded again. *)
Theorem String_serialize_overwrites (h : store) (self : loc) (s : str) (b : bytes) :
  h !! self = Some (mkTLObject (VStr s)) ->
  encode_utf8 s = Ok b ->
  let h' := snd (String_serialize self h) in
  fst (String_serialize self h) = Bytes_serialize (mkTLObject b) /\
  h' !! self = Some (mkTLObject (VBytes b)) /\
  h' !! self <> h !! self /\
  (forall other : loc, other <> self -> h' !! other = h !! other) /\
  String_serialize self h' = (Raise AttributeError, h').
Proof.
  intros Hs He h'.
  assert (Hrun : String_serialize self h =
                 (Bytes_serialize (mkTLObject b), <[self := mkTLObject (VBytes b)]> h)).
  { unfold String_serialize. rewrite Hs. cbn [value]. now rewrite He. }
  assert (Hh' : h' = <[self := mkTLObject (VBytes b)]> h)
    by (unfold h'; now rewrite Hrun).
  assert (Hl : h' !! self = Some (mkTLObject (VBytes b)))
    by (rewrite Hh'; apply lookup_insert_eq).
  split; [now rewrite Hrun|].
  split; [exact Hl|].
  split; [rewrite Hl, Hs; discriminate|].
  split; [intros other Hne; rewrite Hh'; now apply lookup_insert_ne|].
  unfold String_serialize. rewrite Hl. reflexivity.
Qed.

Lemma String_serialize_overwrites_witness :
  let h : store := {[ 1%positive := mkTLObject (VStr [104; 105]) ]} in
  let h' := snd (String_serialize 1%positive h) in
  fst (String_serialize 1%positive h) = Bytes_serialize (mkTLObject [x68; x69]) /\
  h' !! 1%positive = Some (mkTLObject (VBytes [x68; x69])) /\
  h' !! 1%positive <> h !! 1%positive /\
  (forall other : loc, other <> 1%positive -> h' !! other = h !! other) /\
  String_serialize 1%positive h' = (Raise AttributeError, h').
Proof.
  exact (String_serialize_overwrites
           {[ 1%positive := mkTLObject (VStr [104; 105]) ]} 1%positive
           [104; 105] [x68; x69] eq_refl eq_refl).
Defined.

(** When the text cannot be encoded, the object is left as it was. *)
Lemma String_serialize_unencodable (h : store) (self : loc) (s : str) (e : exn) :
  h !! self = Some (mkTLObject (VStr s)) ->
  encode_utf8 s = Raise e ->
  String_serialize self h = (Raise e, h).
Proof.
  intros Hs He. unfold String_serialize. rewrite Hs. cbn [value]. now rewrite He.
Qed.

(** ** Reads never fail and stay inside the buffer *)

Lemma forward_in_bounds_refl (d : BytesIO) : forward_in_bounds d d.
Proof. unfold forward_in_bounds. repeat split; lia. Qed.

Lemma forward_in_bounds_trans (d1 d2 d3 : BytesIO) :
  forward_in_bounds d1 d2 -> forward_in_bounds d2 d3 -> forward_in_bounds d1 d3.
Proof.
  unfold forward_in_bounds. intros (Hb1 & Hl1 & Hu1) (Hb2 & Hl2 & Hu2).
  rewrite Hb1 in Hb2, Hu2. repeat split; [congruence | lia | lia].
Qed.

Lemma advance_in_bounds (d : BytesIO) (k : nat) :
  (k <= length (remaining d))%nat -> forward_in_bounds d (advance d k).
Proof.
  unfold forward_in_bounds, advance, remaining. cbn [buf pos].
  rewrite length_drop. intros H. repeat split; lia.
Qed.

Lemma read_never_raises (size : Z) : never_raises (read size).
Proof. intros d. unfold read. eauto. Qed.

Lemma read_stays_in_bounds (size : Z) : stays_in_bounds (read size).
Proof.
  intros d. unfold read. cbn [snd]. apply advance_in_bounds.
  destruct (size <? 0); lia.
Qed.

Lemma ret_never_raises {A} (a : A) : never_raises (ret a).
Proof. intros d. unfold ret. eauto. Qed.

Lemma ret_stays_in_bounds {A} (a : A) : stays_in_bounds (ret a).
Proof. intros d. apply forward_in_bounds_refl. Qed.

Lemma bind_never_raises {A B} (m : M A) (k : A -> M B) :
  never_raises m -> (forall a, never_raises (k a)) -> never_raises (bind m k).
Proof.
  intros Hm Hk d. unfold bind. destruct (Hm d) as (a & d1 & ->). apply Hk.
Qed.

Lemma bind_stays_in_bounds {A B} (m : M A) (k : A -> M B) :
  stays_in_bounds m -> (forall a, stays_in_bounds (k a)) -> stays_in_bounds (bind m k).
Proof.
  intros Hm Hk d. unfold bind. specialize (Hm d).
  destruct (m d) as [[a|e] d1]; cbn [snd] in *.
  - eapply forward_in_bounds_trans; [exact Hm | apply Hk].
  - exact Hm.
Qed.

Create HintDb cursor.
#[local] Hint Resolve read_never_raises ret_never_raises bind_never_raises : cursor.
#[local] Hint Resolve read_stays_in_bounds ret_stays_in_bounds bind_stays_in_bounds : cursor.

Lemma Int_deserialize_never_raises (cls : IntClass) (signed : bool) :
  never_raises (Int_deserialize cls signed).
Proof. unfold Int_deserialize. auto with cursor. Qed.

Lemma Int_deserialize_stays_in_bounds (cls : IntClass) (signed : bool) :
  stays_in_bounds (Int_deserialize cls signed).
Proof. unfold Int_deserialize. auto with cursor. Qed.

Lemma Double_deserialize_stays_in_bounds : stays_in_bounds Double_deserialize.
Proof.
  unfold Double_deserialize. apply bind_stays_in_bounds; [auto with cursor|].
  intros bs d. apply forward_in_bounds_refl.
Qed.

Lemma Bool_deserialize_never_raises : never_raises Bool_deserialize.
Proof.
  unfold Bool_deserialize.
  auto using Int_deserialize_never_raises with cursor.
Qed.

Lemma Bool_deserialize_stays_in_bounds : stays_in_bounds Bool_deserialize.
Proof.
  unfold Bool_deserialize.
  auto using Int_deserialize_stays_in_bounds with cursor.
Qed.

Lemma Bytes_deserialize_never_raises : never_raises Bytes_deserialize.
Proof.
  unfold Bytes_deserialize. apply bind_never_raises; [auto with cursor|].
  intros b1. apply bind_never_raises; [|auto with cursor].
  destruct (from_bytes b1 false <=? 253); auto with cursor.
Qed.

Lemma Bytes_deserialize_stays_in_bounds : stays_in_bounds Bytes_deserialize.
Proof.
  unfold Bytes_deserialize. apply bind_stays_in_bounds; [auto with cursor|].
  intros b1. apply bind_stays_in_bounds; [|auto with cursor].
  destruct (from_bytes b1 false <=? 253); auto with cursor.
Qed.

Lemma String_deserialize_never_raises (decode_replace : bytes -> str) :
  never_raises (String_deserialize decode_replace).
Proof.
  unfold String_deserialize.
  auto using Bytes_deserialize_never_raises with cursor.
Qed.

Lemma String_deserialize_stays_in_bounds (decode_replace : bytes -> str) :
  stays_in_bounds (String_deserialize decode_replace).
Proof.
  unfold String_deserialize.
  auto using Bytes_deserialize_stays_in_bounds with cursor.
Qed.

(** ** Vectors *)

Section VectorFacts.
Context {A : Type}.
Variable type_deserialize : M A.

Lemma calls_length (n : nat) (d d' : BytesIO) (items : list A) :
  calls type_deserialize n d items d' -> length items = n.
Proof. induction 1; simpl; congruence. Qed.

(** The loop returns exactly when every call returns, with the values
    appended to the accumulator in call order. *)
Lemma Vector_loop_calls (n : nat) :
  forall (acc : list A) (d : BytesIO) (items : list A) (d' : BytesIO),
    Vector_loop type_deserialize n acc d = (Ok items, d') <->
    exists new, items = acc ++ new /\ calls type_deserialize n d new d'.
Proof.
  induction n as [|n IH]; intros acc d items d'.
  - cbn [Vector_loop]. unfold ret. split.
    + intros [= <- <-]. exists []. rewrite app_nil_r. split; [reflexivity | constructor].
    + intros (new & -> & Hc). inversion Hc; subst. now rewrite app_nil_r.
  - cbn [Vector_loop]. unfold bind.
    destruct (type_deserialize d) as [[a|e] d1] eqn:Ea.
    + rewrite IH. split.
      * intros (new & -> & Hc). exists (a :: new). split.
        -- now rewrite <- app_assoc.
        -- econstructor; eassumption.
      * intros (new & -> & Hc). inversion Hc as [|? ? a' d1' new' ? Ha' Hc']; subst.
        rewrite Ea in Ha'. injection Ha' as <- <-.
        exists new'. split; [now rewrite <- app_assoc | assumption].
    + split; [discriminate|].
      intros (new & _ & Hc). inversion Hc as [|? ? a' d1' new' ? Ha' Hc']; subst.
      rewrite Ea in Ha'. discriminate.
Qed.

(** An element that raises aborts the loop with that exception. *)
Lemma Vector_loop_raise (n : nat) (acc : list A) (d d1 : BytesIO) (e : exn) :
  type_deserialize d = (Raise e, d1) ->
  Vector_loop type_deserialize (S n) acc d = (Raise e, d1).
Proof. intros H. cbn [Vector_loop]. unfold bind. now rewrite H. Qed.

Lemma Vector_loop_never_raises (n : nat) (acc : list A) :
  never_raises type_deserialize ->
  never_raises (Vector_loop type_deserialize n acc).
Proof.
  intros H. revert acc. induction n as [|n IH]; intros acc; cbn [Vector_loop];
    auto with cursor.
Qed.

Lemma Vector_loop_stays_in_bounds (n : nat) (acc : list A) :
  stays_in_bounds type_deserialize ->
  stays_in_bounds (Vector_loop type_deserialize n acc).
Proof.
  intros H. revert acc. induction n as [|n IH]; intros acc; cbn [Vector_loop];
    auto with cursor.
Qed.

Lemma Vector_deserialize_never_raises :
  never_raises type_deserialize ->
  never_raises (Vector_deserialize type_deserialize).
Proof.
  intros H. unfold Vector_deserialize.
  auto using Int_deserialize_never_raises, Vector_loop_never_raises with cursor.
Qed.

Lemma Vector_deserialize_stays_in_bounds :
  stays_in_bounds type_deserialize ->
  stays_in_bounds (Vector_deserialize type_deserialize).
Proof.
  intros H. unfold Vector_deserialize.
  auto using Int_deserialize_stays_in_bounds, Vector_loop_stays_in_bounds with cursor.
Qed.

(** On a cursor with the eight header bytes, the header is consumed
    and the loop runs on what follows, the count taken as signed. *)
Lemma Vector_deserialize_header (before rest : bytes)
      (c0 c1 c2 c3 n0 n1 n2 n3 : byte) :
  Vector_deserialize type_deserialize
    (cursor_at before ([c0; c1; c2; c3] ++ [n0; n1; n2; n3] ++ rest)) =
  Vector_loop type_deserialize (Z.to_nat (from_bytes [n0; n1; n2; n3] true)) []
    (cursor_at (before ++ [c0; c1; c2; c3] ++ [n0; n1; n2; n3]) rest).
Proof.
  unfold Vector_deserialize, bind.
  rewrite Int_deserialize_exact by reflexivity.
  rewrite Int_deserialize_exact by reflexivity.
  now rewrite <- app_assoc.
Qed.
End VectorFacts.

Lemma from_bytes_signed_4 (b0 b1 b2 b3 : byte) :
  let u := from_bytes [b0; b1; b2; b3] false in
  0 <= u < 2 ^ 32 /\
  from_bytes [b0; b1; b2; b3] true = (if 2 ^ 31 <=? u then u - 2 ^ 32 else u).
Proof.
  intros u. assert (Hu : 0 <= u < 2 ^ 32) by apply (from_bytes_le_range [b0; b1; b2; b3]).
  split; [exact Hu|].
  unfold from_bytes. fold (from_bytes_le [b0; b1; b2; b3]).
  change (from_bytes_le [b0; b1; b2; b3]) with u.
  change (8 * Z.of_nat (length [b0; b1; b2; b3])) with 32.
  change (32 - 1) with 31. cbn [andb].
  now rewrite testbit_top by (change (31 + 1) with 32; lia).
Qed.

(** C2, as the code has it: [Vector.deserialize] reads four bytes of
    constructor id and drops them unchecked, reads the count as a
    _signed_ 4-byte little-endian integer, and calls the element
    [deserialize] max(count, 0) times in a row on what follows; it
    returns exactly when all these calls return, with their values in
    call order, so a returned list has max(count, 0) elements.  The
    signed count is the unsigned one below 2^31, and 2^32 less from
    there on. *)
Theorem Vector_deserialize_signed_count {A : Type} (type_deserialize : M A)
    (before rest : bytes) (c0 c1 c2 c3 n0 n1 n2 n3 : byte) :
  let d := cursor_at before ([c0; c1; c2; c3] ++ [n0; n1; n2; n3] ++ rest) in
  let body := cursor_at (before ++ [c0; c1; c2; c3] ++ [n0; n1; n2; n3]) rest in
  let count := from_bytes [n0; n1; n2; n3] true in
  let ucount := from_bytes [n0; n1; n2; n3] false in
  count = (if 2 ^ 31 <=? ucount then ucount - 2 ^ 32 else ucount) /\
  (forall items d',
      Vector_deserialize type_deserialize d = (Ok items, d') <->
      calls type_deserialize (Z.to_nat count) body items d') /\
  (forall items d',
      Vector_deserialize type_deserialize d = (Ok items, d') ->
      Z.of_nat (length items) = Z.max 0 count) /\
  (forall e d',
      Vector_deserialize type_deserialize d = (Raise e, d') -> 0 < count).
Proof.
  intros d body count ucount.
  assert (Hiff : forall items d',
             Vector_deserialize type_deserialize d = (Ok items, d') <->
             calls type_deserialize (Z.to_nat count) body items d').
  { intros items d'. unfold d. rewrite Vector_deserialize_header.
    rewrite Vector_loop_calls. cbn [app]. split.
    - intros (new & -> & Hc). exact Hc.
    - intros Hc. eauto. }
  split; [apply from_bytes_signed_4|].
  split; [exact Hiff|]. split.
  - intros items d' H. apply Hiff, calls_length in H. lia.
  - intros e d' H. unfold d in H. rewrite Vector_deserialize_header in H.
    fold count in H. destruct (Z.to_nat count) eqn:E; [discriminate | lia].
Qed.

Lemma Vector_deserialize_signed_count_witness :
  Vector_deserialize (Int_deserialize Int true)
    (cursor_at [] ([x15; xc4; xb5; x1c] ++ [x02; x00; x00; x00] ++
                   [x01; x00; x00; x00; x05; x00; x00; x00])) =
  (Ok [1; 5],
   mkBytesIO ([x15; xc4; xb5; x1c] ++ [x02; x00; x00; x00] ++
              [x01; x00; x00; x00; x05; x00; x00; x00]) 16) /\
  Z.of_nat (length [1; 5]) = Z.max 0 (from_bytes [x02; x00; x00; x00] true).
Proof.
  assert (H : Vector_deserialize (Int_deserialize Int true)
    (cursor_at [] ([x15; xc4; xb5; x1c] ++ [x02; x00; x00; x00] ++
                   [x01; x00; x00; x00; x05; x00; x00; x00])) =
  (Ok [1; 5],
   mkBytesIO ([x15; xc4; xb5; x1c] ++ [x02; x00; x00; x00] ++
              [x01; x00; x00; x00; x05; x00; x00; x00]) 16))
    by (vm_compute; reflexivity).
  split; [exact H|].
  exact (proj1 (proj2 (proj2
    (Vector_deserialize_signed_count (Int_deserialize Int true) []
       [x01; x00; x00; x00; x05; x00; x00; x00]
       x15 xc4 xb5 x1c x02 x00 x00 x00))) _ _ H).
Defined.

(** C2, as stated, fails on a header whose count bytes are FF FF FF FF:
    read unsigned they are 4294967295, but the code takes them as -1,
    calls the element codec not once and returns the empty list. *)
Lemma Vector_deserialize_count_ff :
  from_bytes [xff; xff; xff; xff] false = 4294967295 /\
  Vector_deserialize (Int_deserialize Int true)
    (mkBytesIO [x15; xc4; xb5; x1c; xff; xff; xff; xff; x01; x00; x00; x00] 0) =
  (Ok [],
   mkBytesIO [x15; xc4; xb5; x1c; xff; xff; xff; xff; x01; x00; x00; x00] 8).
Proof. split; vm_compute; reflexivity. Qed.

(** ** Short reads *)

Lemma Int_deserialize_eq (cls : IntClass) (signed : bool) (d : BytesIO) :
  Int_deserialize cls signed d =
  (Ok (from_bytes (take (LENGTH cls) (remaining d)) signed),
   advance d (Nat.min (LENGTH cls) (length (remaining d)))).
Proof.
  unfold Int_deserialize, bind. rewrite read_eq by lia.
  rewrite Nat2Z.id. reflexivity.
Qed.

Lemma Double_deserialize_eq (d : BytesIO) :
  Double_deserialize d =
  (struct_unpack_d (take 8 (remaining d)),
   advance d (Nat.min 8 (length (remaining d)))).
Proof.
  unfold Double_deserialize, bind. rewrite read_eq by lia. reflexivity.
Qed.

Lemma from_bytes_le_below_3 (bs : bytes) :
  (length bs < 4)%nat -> from_bytes_le bs < 16777216.
Proof.
  intros H. pose proof (from_bytes_le_range bs) as Hr.
  assert (Hp : 2 ^ (8 * Z.of_nat (length bs)) <= 2 ^ 24)
    by (apply Z.pow_le_mono_r; lia).
  change (2 ^ 24) with 16777216 in Hp. lia.
Qed.

(** C1, as stated, fails on a cursor with one byte left: the 4-byte
    [Int.deserialize] returns 1 instead of raising, [Bool.deserialize]
    returns false, [Bytes.deserialize] returns the empty string. *)
Lemma Int_deserialize_short_returns :
  (length (remaining (mkBytesIO [x01] 0)) < LENGTH Int)%nat /\
  Int_deserialize Int true (mkBytesIO [x01] 0) = (Ok 1, mkBytesIO [x01] 1) /\
  Bool_deserialize (mkBytesIO [x01] 0) = (Ok false, mkBytesIO [x01] 1) /\
  Bytes_deserialize (mkBytesIO [x01] 0) = (Ok [], mkBytesIO [x01] 1).
Proof. split; [simpl; lia|]. repeat split. Qed.

(** * Further properties of the codecs *)

(** ** Integers: the range of [serialize] and the other round trip *)

Lemma pow2_bits_split (n : nat) :
  (0 < n)%nat ->
  2 ^ (8 * Z.of_nat n) = 2 * 2 ^ (8 * Z.of_nat n - 1) /\
  0 < 2 ^ (8 * Z.of_nat n - 1).
Proof.
  intros Hn. split.
  - rewrite <- Z.pow_succ_r by lia. f_equal. lia.
  - apply Z.pow_pos_nonneg; lia.
Qed.

Lemma to_bytes_unrepresentable (x : Z) (n : nat) (signed : bool) :
  (0 < n)%nat -> ~ representable n signed x ->
  to_bytes x n signed = Raise OverflowError.
Proof.
  intros Hn Hr. destruct (to_bytes x n signed) as [bs|e] eqn:E.
  - exfalso. apply Hr. apply to_bytes_inv in E as [_ E].
    unfold representable. destruct signed; [|exact E].
    destruct (pow2_bits_split n Hn) as [Hp _]. lia.
  - unfold to_bytes in E. destruct (if signed then _ else _); [discriminate|].
    now injection E as <-.
Qed.

Lemma LENGTH_pos (cls : IntClass) : (0 < LENGTH cls)%nat.
Proof. destruct cls; simpl; lia. Qed.

Lemma to_bytes_le_congr (v w : Z) (n : nat) :
  v mod 2 ^ (8 * Z.of_nat n) = w mod 2 ^ (8 * Z.of_nat n) ->
  to_bytes_le v n = to_bytes_le w n.
Proof.
  intros H. apply from_bytes_le_inj.
  - now rewrite !length_to_bytes_le.
  - now rewrite !from_to_bytes_le.
Qed.

Lemma to_from_bytes_le (bs : bytes) :
  to_bytes_le (from_bytes_le bs) (length bs) = bs.
Proof.
  apply from_bytes_le_inj; [apply length_to_bytes_le|].
  rewrite from_to_bytes_le. apply Z.mod_small, from_bytes_le_range.
Qed.

(** The signed reading of a non-empty byte string, from the unsigned. *)
Lemma from_bytes_signed (bs : bytes) :
  bs <> [] ->
  let u := from_bytes_le bs in
  let k := 8 * Z.of_nat (length bs) in
  from_bytes bs true = (if 2 ^ (k - 1) <=? u then u - 2 ^ k else u).
Proof.
  intros Hne u k. unfold from_bytes. fold u. fold k. cbn [andb].
  assert (Hk : 0 < k) by (unfold k; destruct bs; [congruence | simpl length; lia]).
  rewrite testbit_top; [reflexivity | lia |].
  replace (k - 1 + 1) with k by lia. apply from_bytes_le_range.
Qed.

Lemma from_bytes_representable (bs : bytes) (signed : bool) (n : nat) :
  (0 < n)%nat -> (length bs <= n)%nat ->
  representable n signed (from_bytes bs signed).
Proof.
  intros Hn Hl. unfold representable.
  pose proof (from_bytes_le_range bs) as Hu.
  destruct (pow2_bits_split n Hn) as [Hp Hpos].
  assert (Hmono : 2 ^ (8 * Z.of_nat (length bs)) <= 2 ^ (8 * Z.of_nat n))
    by (apply Z.pow_le_mono_r; lia).
  destruct signed; [|rewrite from_bytes_unsigned; lia].
  destruct bs as [|b t].
  - vm_compute from_bytes. lia.
  - rewrite from_bytes_signed by discriminate. cbv zeta.
    set (k := 8 * Z.of_nat (length (b :: t))) in *.
    set (u := from_bytes_le (b :: t)) in *.
    assert (Hk : 0 < k) by (unfold k; simpl length; lia).
    assert (Hk2 : 2 ^ k = 2 * 2 ^ (k - 1))
      by (rewrite <- Z.pow_succ_r by lia; f_equal; lia).
    assert (Hm2 : 2 ^ (k - 1) <= 2 ^ (8 * Z.of_nat n - 1))
      by (apply Z.pow_le_mono_r; unfold k; lia).
    destruct (Z.leb_spec (2 ^ (k - 1)) u); lia.
Qed.

(** X1: [serialize] of an integer class returns exactly [LENGTH] bytes
    when the value is representable at that width with the given
    signedness, and raises OverflowError otherwise; when both
    signednesses accept a value they emit the same bytes. *)
Theorem Int_serialize_range (cls : IntClass) (signed : bool) (x : Z) :
  ((representable (LENGTH cls) signed x /\
    exists bs, Int_serialize cls (mkTLObject x) signed = Ok bs /\
               length bs = LENGTH cls) \/
   (~ representable (LENGTH cls) signed x /\
    Int_serialize cls (mkTLObject x) signed = Raise OverflowError)) /\
  (forall b1 b2,
      Int_serialize cls (mkTLObject x) true = Ok b1 ->
      Int_serialize cls (mkTLObject x) false = Ok b2 -> b1 = b2).
Proof.
  split.
  - destruct (Int_serialize cls (mkTLObject x) signed) as [bs|e] eqn:E.
    + left. split; [now apply Int_serialize_ok_representable in E|].
      exists bs. split; [reflexivity|].
      unfold Int_serialize in E. apply to_bytes_inv in E as [-> _].
      apply length_to_bytes_le.
    + right. assert (Hn : ~ representable (LENGTH cls) signed x).
      { intros Hr. unfold Int_serialize in E. cbn [value] in E.
        rewrite to_bytes_representable in E by assumption. discriminate. }
      split; [exact Hn|]. f_equal.
      pose proof (to_bytes_unrepresentable x (LENGTH cls) signed (LENGTH_pos cls) Hn) as H.
      unfold Int_serialize in E. cbn [value] in E. congruence.
  - unfold Int_serialize. cbn [value]. intros b1 b2 H1 H2.
    apply to_bytes_inv in H1 as [-> _]. apply to_bytes_inv in H2 as [-> _].
    reflexivity.
Qed.

(** X2: any [LENGTH] bytes are the serialization of the integer they
    deserialize to: reading them and serializing the result, with the
    same signedness, gives the same bytes back. *)
Theorem Int_deserialize_serialize (cls : IntClass) (signed : bool)
    (bs before rest : bytes) :
  length bs = LENGTH cls ->
  exists v,
    Int_deserialize cls signed (cursor_at before (bs ++ rest)) =
      (Ok v, cursor_at (before ++ bs) rest) /\
    Int_serialize cls (mkTLObject v) signed = Ok bs.
Proof.
  intros Hl. exists (from_bytes bs signed).
  split; [now apply Int_deserialize_exact|].
  unfold Int_serialize. cbn [value].
  rewrite to_bytes_representable
    by (apply from_bytes_representable; [apply LENGTH_pos | lia]).
  f_equal. rewrite <- Hl. rewrite <- (to_from_bytes_le bs) at 3.
  apply to_bytes_le_congr.
  destruct signed; [|reflexivity].
  destruct bs as [|b t]; [reflexivity|].
  rewrite from_bytes_signed by discriminate. cbv zeta.
  destruct (_ <=? _); [|reflexivity].
  rewrite <- (Z.mod_add _ 1) by (apply Z.pow_nonzero; lia).
  f_equal. lia.
Qed.

Lemma Int_deserialize_serialize_witness :
  length [xfe; xff; xff; xff] = LENGTH Int /\
  exists v,
    Int_deserialize Int true (cursor_at [] ([xfe; xff; xff; xff] ++ [x07])) =
      (Ok v, cursor_at ([] ++ [xfe; xff; xff; xff]) [x07]) /\
    Int_serialize Int (mkTLObject v) true = Ok [xfe; xff; xff; xff].
Proof.
  split; [reflexivity|].
  exact (Int_deserialize_serialize Int true [xfe; xff; xff; xff] [] [x07] eq_refl).
Defined.

(** X3: whatever the cursor holds, [deserialize] of an integer class
    returns a value that [serialize] of the same class and signedness
    accepts: a read, even a short one, never yields an integer the
    class cannot write. *)
Theorem Int_deserialize_representable (cls : IntClass) (signed : bool) (d : BytesIO) :
  exists v d' bs,
    Int_deserialize cls signed d = (Ok v, d') /\
    representable (LENGTH cls) signed v /\
    Int_serialize cls (mkTLObject v) signed = Ok bs /\
    length bs = LENGTH cls.
Proof.
  rewrite Int_deserialize_eq.
  set (v := from_bytes (take (LENGTH cls) (remaining d)) signed).
  assert (Hr : representable (LENGTH cls) signed v).
  { apply from_bytes_representable; [apply LENGTH_pos|].
    rewrite length_take. lia. }
  exists v, (advance d (Nat.min (LENGTH cls) (length (remaining d)))),
    (to_bytes_le v (LENGTH cls)).
  split; [reflexivity|]. split; [exact Hr|].
  split; [now apply to_bytes_representable | apply length_to_bytes_le].
Qed.

(** X4: on the same [LENGTH] bytes, the signed reading is the unsigned
    one when that is below half the range, and the unsigned one minus
    2^(8*LENGTH) from there on. *)
Theorem Int_deserialize_signed_unsigned (cls : IntClass) (bs before rest : bytes) :
  length bs = LENGTH cls ->
  let w := 8 * Z.of_nat (LENGTH cls) in
  exists u s,
    Int_deserialize cls false (cursor_at before (bs ++ rest)) =
      (Ok u, cursor_at (before ++ bs) rest) /\
    Int_deserialize cls true (cursor_at before (bs ++ rest)) =
      (Ok s, cursor_at (before ++ bs) rest) /\
    0 <= u < 2 ^ w /\
    s = (if 2 ^ (w - 1) <=? u then u - 2 ^ w else u).
Proof.
  intros Hl w. exists (from_bytes bs false), (from_bytes bs true).
  split; [now apply Int_deserialize_exact|].
  split; [now apply Int_deserialize_exact|].
  rewrite from_bytes_unsigned. unfold w. rewrite <- Hl.
  split; [apply from_bytes_le_range|].
  apply from_bytes_signed. intros ->. pose proof (LENGTH_pos cls). simpl in Hl. lia.
Qed.

Lemma Int_deserialize_signed_unsigned_witness :
  length [xfe; xff; xff; xff] = LENGTH Int /\
  let w := 8 * Z.of_nat (LENGTH Int) in
  exists u s,
    Int_deserialize Int false (cursor_at [] ([xfe; xff; xff; xff] ++ [])) =
      (Ok u, cursor_at ([] ++ [xfe; xff; xff; xff]) []) /\
    Int_deserialize Int true (cursor_at [] ([xfe; xff; xff; xff] ++ [])) =
      (Ok s, cursor_at ([] ++ [xfe; xff; xff; xff]) []) /\
    0 <= u < 2 ^ w /\
    s = (if 2 ^ (w - 1) <=? u then u - 2 ^ w else u).
Proof.
  split; [reflexivity|].
  exact (Int_deserialize_signed_unsigned Int [xfe; xff; xff; xff] [] [] eq_refl).
Defined.

(** ** The exhausted cursor, doubles and booleans *)

Lemma advance_0 (d : BytesIO) : advance d 0 = d.
Proof. destruct d as [b p]. unfold advance. cbn [buf pos]. f_equal. lia. Qed.

Lemma read_exhausted (size : Z) (d : BytesIO) :
  remaining d = [] -> read size d = (Ok [], d).
Proof.
  intros H. unfold read. rewrite H. cbn [length].
  rewrite Nat.min_0_r. destruct (size <? 0); now rewrite advance_0.
Qed.

(** X5: on a cursor with nothing left, every [deserialize] but that of
    [Double] returns an empty value and leaves the cursor where it was:
    the integer classes return 0, [Bool] false, [Bytes] the empty byte
    string, [String] the decoding of the empty byte string, and [Vector]
    the empty list, without calling the element class; [Double] raises
    [struct.error]. *)
Theorem deserialize_exhausted (d : BytesIO) :
  remaining d = [] ->
  (forall cls signed, Int_deserialize cls signed d = (Ok 0, d)) /\
  Bool_deserialize d = (Ok false, d) /\
  Bytes_deserialize d = (Ok [], d) /\
  (forall decode_replace,
      String_deserialize decode_replace d = (Ok (decode_replace []), d)) /\
  (forall (A : Type) (type_deserialize : M A),
      Vector_deserialize type_deserialize d = (Ok [], d)) /\
  Double_deserialize d = (Raise StructError, d).
Proof.
  intros H.
  assert (Hi : forall cls signed, Int_deserialize cls signed d = (Ok 0, d)).
  { intros cls signed. unfold Int_deserialize, bind.
    rewrite read_exhausted by assumption. unfold ret. now destruct signed. }
  assert (Hb : Bytes_deserialize d = (Ok [], d)).
  { unfold Bytes_deserialize, bind. rewrite read_exhausted by assumption.
    cbn. now apply read_exhausted. }
  split; [exact Hi|].
  split; [unfold Bool_deserialize, bind; now rewrite Hi|].
  split; [exact Hb|].
  split; [intros dec; unfold String_deserialize, bind; now rewrite Hb|].
  split; [intros A elem; unfold Vector_deserialize, bind; now rewrite !Hi|].
  unfold Double_deserialize, bind. now rewrite read_exhausted.
Qed.

Lemma deserialize_exhausted_witness :
  let d := mkBytesIO [x01; x02] 2 in
  remaining d = [] /\
  (forall cls signed, Int_deserialize cls signed d = (Ok 0, d)) /\
  Bool_deserialize d = (Ok false, d) /\
  Bytes_deserialize d = (Ok [], d) /\
  (forall decode_replace,
      String_deserialize decode_replace d = (Ok (decode_replace []), d)) /\
  (forall (A : Type) (type_deserialize : M A),
      Vector_deserialize type_deserialize d = (Ok [], d)) /\
  Double_deserialize d = (Raise StructError, d).
Proof.
  split; [reflexivity|].
  exact (deserialize_exhausted (mkBytesIO [x01; x02] 2) eq_refl).
Defined.

(** X6: [Double.deserialize] raises [struct.error] exactly when fewer
    than 8 bytes are left; on 8 bytes or more it consumes exactly 8 and
    returns the float whose bit pattern is their little-endian value,
    so that the 8 bytes can be recovered from the result. *)
Theorem Double_deserialize_eight (bs before rest : bytes) :
  length bs = 8%nat ->
  (exists v,
      Double_deserialize (cursor_at before (bs ++ rest)) =
        (Ok v, cursor_at (before ++ bs) rest) /\
      0 <= float_bits v < 2 ^ 64 /\
      to_bytes_le (float_bits v) 8 = bs) /\
  (forall d : BytesIO,
      fst (Double_deserialize d) = Raise StructError <->
      (length (remaining d) < 8)%nat).
Proof.
  intros Hl. split.
  - exists (mkFloat (from_bytes_le bs)). cbn [float_bits]. split.
    + unfold Double_deserialize, bind.
      change 8 with (Z.of_nat 8). rewrite <- Hl, read_exact.
      unfold struct_unpack_d. now rewrite Hl.
    + split.
      * pose proof (from_bytes_le_range bs) as Hr. rewrite Hl in Hr. exact Hr.
      * rewrite <- Hl. apply to_from_bytes_le.
  - intros d. rewrite Double_deserialize_eq. cbn [fst]. unfold struct_unpack_d.
    rewrite length_take.
    destruct (Nat.eqb_spec (Nat.min 8 (length (remaining d))) 8) as [E|E].
    + split; [discriminate | lia].
    + split; [lia | reflexivity].
Qed.

Lemma Double_deserialize_eight_witness :
  let bs := [x00; x00; x00; x00; x00; x00; xf0; x3f] in
  length bs = 8%nat /\
  exists v,
    Double_deserialize (cursor_at [] (bs ++ [x07])) =
      (Ok v, cursor_at ([] ++ bs) [x07]) /\
    0 <= float_bits v < 2 ^ 64 /\
    to_bytes_le (float_bits v) 8 = bs.
Proof.
  split; [reflexivity|].
  exact (proj1 (Double_deserialize_eight
                  [x00; x00; x00; x00; x00; x00; xf0; x3f] [] [x07] eq_refl)).
Defined.

(** X7: a boolean survives the round trip: [Bool.serialize] emits four
    bytes and [Bool.deserialize] on a cursor over them returns the
    value and stops just after them. *)
Theorem Bool_roundtrip (v : bool) (before rest : bytes) :
  exists bs,
    Bool_serialize (mkTLObject v) = Ok bs /\
    length bs = 4%nat /\
    Bool_deserialize (cursor_at before (bs ++ rest)) =
      (Ok v, cursor_at (before ++ bs) rest).
Proof.
  destruct v.
  - exists [xb5; x75; x72; x99]. repeat split. apply Bool_deserialize_four.
  - exists [x37; x97; x79; xbc]. repeat split. apply Bool_deserialize_four.
Qed.

(** ** Byte strings: what the decoder accepts and what it leaves *)

Lemma Bytes_serialize_ok_bound (payload out : bytes) :
  Bytes_serialize (mkTLObject payload) = Ok out ->
  Z.of_nat (length payload) < 16777216.
Proof.
  intros H. destruct (Z_lt_le_dec (Z.of_nat (length payload)) 16777216) as [Hl|Hl];
    [exact Hl|].
  rewrite Bytes_serialize_overflow in H by assumption. discriminate.
Qed.

Lemma length_prefix_long_form (b : byte) (n : Z) :
  253 < Z_of_byte b -> 0 <= n < 16777216 ->
  length_prefix ([b] ++ to_bytes_le n 3) n.
Proof.
  intros Hb Hn.
  assert (E : from_bytes_le (to_bytes_le n 3) = n).
  { rewrite from_to_bytes_le. change (2 ^ (8 * Z.of_nat 3)) with 16777216.
    now apply Z.mod_small. }
  rewrite <- E at 2. cbn [to_bytes_le app]. now constructor.
Qed.

(** X8: the decoder also accepts a long-form prefix for a short payload.
    For a payload of at most 253 bytes, a first byte FE or FF followed
    by the length on three little-endian bytes decodes to the payload,
    although [serialize] never emits it: its output starts with the
    length byte itself. *)
Theorem Bytes_deserialize_long_form_small (payload before rest : bytes) (b : byte) :
  let len := Z.of_nat (length payload) in
  253 < Z_of_byte b ->
  len <= 253 ->
  Bytes_deserialize
    (cursor_at before (([b] ++ to_bytes_le len 3) ++ payload ++ rest)) =
    (Ok payload, cursor_at (before ++ ([b] ++ to_bytes_le len 3) ++ payload) rest) /\
  exists tail,
    Bytes_serialize (mkTLObject payload) = Ok (byte_of_Z len :: tail) /\
    byte_of_Z len <> b.
Proof.
  intros len Hb Hs. split.
  - apply Bytes_deserialize_prefixed. apply length_prefix_long_form; [assumption|].
    unfold len. lia.
  - eexists. split; [rewrite Bytes_serialize_short by assumption; reflexivity|].
    intros E. rewrite <- E in Hb. rewrite Z_of_byte_of_Z in Hb.
    rewrite Z.mod_small in Hb by (unfold len in *; lia). fold len in Hb. lia.
Qed.

Lemma Bytes_deserialize_long_form_small_witness :
  253 < Z_of_byte xfe /\
  Z.of_nat (length [x61; x62]) <= 253 /\
  Bytes_deserialize
    (cursor_at [] (([xfe] ++ to_bytes_le 2 3) ++ [x61; x62] ++ [x00; x00])) =
    (Ok [x61; x62], cursor_at ([] ++ ([xfe] ++ to_bytes_le 2 3) ++ [x61; x62]) [x00; x00]) /\
  exists tail,
    Bytes_serialize (mkTLObject [x61; x62]) = Ok (byte_of_Z 2 :: tail) /\
    byte_of_Z 2 <> xfe.
Proof.
  assert (Hb : 253 < Z_of_byte xfe) by reflexivity.
  assert (Hs : Z.of_nat (length [x61; x62]) <= 253) by (vm_compute; discriminate).
  split; [exact Hb|]. split; [exact Hs|].
  exact (Bytes_deserialize_long_form_small [x61; x62] [] [x00; x00] xfe Hb Hs).
Defined.

(** X9: a second [Bytes.deserialize] does not find the next item.  When
    prefix and payload do not fill a multiple of 4 bytes, the cursor
    stands on a padding byte after the first decode, and the next
    [Bytes.deserialize] reads that zero as a length: it returns the
    empty byte string and advances by one byte, whatever follows the
    padding. *)
Theorem Bytes_deserialize_twice_reads_padding (payload before rest : bytes) :
  let len := Z.of_nat (length payload) in
  len < 16777216 ->
  ((if len <=? 253 then 1 else 4) + len) mod 4 <> 0 ->
  exists out d1 d2,
    Bytes_serialize (mkTLObject payload) = Ok out /\
    Bytes_deserialize (cursor_at before (out ++ rest)) = (Ok payload, d1) /\
    Bytes_deserialize d1 = (Ok [], d2) /\
    pos d2 = S (pos d1) /\
    (pos d2 <= length before + length out)%nat.
Proof.
  intros len Hl Hpad.
  destruct (Bytes_serialize_shape payload Hl) as (prefix & k & Hs & Hp & Hpl & Hk & Ha).
  fold len in Hpl, Hp.
  assert (Hk1 : (1 <= k)%nat).
  { destruct k as [|k']; [|lia]. exfalso. apply Hpad.
    rewrite <- Ha. f_equal. rewrite !length_app. cbn [repeat length].
    destruct (len <=? 253); rewrite Hpl; unfold len; lia. }
  destruct k as [|k']; [lia|]. cbn [repeat] in *.
  exists (prefix ++ payload ++ x00 :: repeat x00 k'),
    (cursor_at (before ++ prefix ++ payload) ((x00 :: repeat x00 k') ++ rest)),
    (cursor_at ((before ++ prefix ++ payload) ++ [x00]) (repeat x00 k' ++ rest)).
  split; [exact Hs|]. split.
  { rewrite <- !app_assoc. now apply Bytes_deserialize_prefixed. }
  split.
  { rewrite <- app_comm_cons. rewrite Bytes_deserialize_short by (vm_compute; discriminate).
    change (Z_of_byte x00) with 0. rewrite read_cursor_at by lia.
    cbn [Z.to_nat take drop]. now rewrite app_nil_r. }
  unfold cursor_at. cbn [pos]. rewrite !length_app. cbn [length].
  rewrite repeat_length. split; lia.
Qed.

Lemma Bytes_deserialize_twice_reads_padding_witness :
  Z.of_nat (length [x61; x62]) < 16777216 /\
  ((if Z.of_nat (length [x61; x62]) <=? 253 then 1 else 4)
   + Z.of_nat (length [x61; x62])) mod 4 <> 0 /\
  exists out d1 d2,
    Bytes_serialize (mkTLObject [x61; x62]) = Ok out /\
    Bytes_deserialize (cursor_at [] (out ++ [x02; x63; x64; x00])) =
      (Ok [x61; x62], d1) /\
    Bytes_deserialize d1 = (Ok [], d2) /\
    pos d2 = S (pos d1) /\
    (pos d2 <= length (@nil byte) + length out)%nat.
Proof.
  assert (H1 : Z.of_nat (length [x61; x62]) < 16777216) by (vm_compute; reflexivity).
  assert (H2 : ((if Z.of_nat (length [x61; x62]) <=? 253 then 1 else 4)
                + Z.of_nat (length [x61; x62])) mod 4 <> 0)
    by (vm_compute; discriminate).
  split; [exact H1|]. split; [exact H2|].
  exact (Bytes_deserialize_twice_reads_padding [x61; x62] [] [x02; x63; x64; x00] H1 H2).
Defined.

(** X10: [Bytes.serialize] is injective: two payloads with the same
    output are the same payload. *)
Theorem Bytes_serialize_injective (p q out : bytes) :
  Bytes_serialize (mkTLObject p) = Ok out ->
  Bytes_serialize (mkTLObject q) = Ok out ->
  p = q.
Proof.
  intros Hp Hq.
  pose proof (Bytes_serialize_ok_bound _ _ Hp) as Bp.
  pose proof (Bytes_serialize_ok_bound _ _ Hq) as Bq.
  destruct (Bytes_serialize_shape p Bp) as (pp & kp & Sp & Lp & _).
  destruct (Bytes_serialize_shape q Bq) as (pq & kq & Sq & Lq & _).
  rewrite Hp in Sp. rewrite Hq in Sq. injection Sp as Sp. injection Sq as Sq.
  pose proof (Bytes_deserialize_prefixed [] pp p (repeat x00 kp) Lp) as Dp.
  pose proof (Bytes_deserialize_prefixed [] pq q (repeat x00 kq) Lq) as Dq.
  rewrite <- Sp in Dp. rewrite <- Sq in Dq. rewrite Dp in Dq.
  now injection Dq.
Qed.

Lemma Bytes_serialize_injective_witness :
  Bytes_serialize (mkTLObject [x61; x62]) = Ok [x02; x61; x62; x00] /\
  [x61; x62] = [x61; x62].
Proof.
  split; [reflexivity|].
  exact (Bytes_serialize_injective [x61; x62] [x61; x62] [x02; x61; x62; x00]
           eq_refl eq_refl).
Defined.

(** X11: the padding is minimal: the output of [Bytes.serialize] has
    the least multiple of 4 that holds the prefix (1 byte up to 253
    payload bytes, 4 bytes above) and the payload. *)
Theorem Bytes_serialize_length (payload out : bytes) :
  Bytes_serialize (mkTLObject payload) = Ok out ->
  let len := Z.of_nat (length payload) in
  let plen := if len <=? 253 then 1 else 4 in
  Z.of_nat (length out) = 4 * ((plen + len + 3) / 4) /\
  plen + len <= Z.of_nat (length out) < plen + len + 4.
Proof.
  intros Hs len plen.
  pose proof (Bytes_serialize_ok_bound _ _ Hs) as Hb.
  destruct (Bytes_serialize_shape payload Hb) as (prefix & k & Hs' & _ & Hpl & Hk & Ha).
  rewrite Hs in Hs'. injection Hs' as ->.
  set (t := Z.of_nat (length (prefix ++ payload ++ repeat x00 k))) in *.
  assert (Ht : t = plen + len + Z.of_nat k).
  { unfold t. rewrite !length_app, repeat_length, Hpl. unfold plen, len.
    destruct (Z.of_nat (length payload) <=? 253); lia. }
  assert (Hq : t = 4 * (t / 4)) by (apply Z_div_exact_full_2; lia).
  split; [|lia].
  rewrite Hq at 1. f_equal.
  apply (Z.div_unique (plen + len + 3) 4 (t / 4) (3 - Z.of_nat k)); lia.
Qed.

Lemma Bytes_serialize_length_witness :
  Bytes_serialize (mkTLObject [x61; x62]) = Ok [x02; x61; x62; x00] /\
  let len := Z.of_nat (length [x61; x62]) in
  let plen := if len <=? 253 then 1 else 4 in
  Z.of_nat (length [x02; x61; x62; x00]) = 4 * ((plen + len + 3) / 4) /\
  plen + len <= Z.of_nat (length [x02; x61; x62; x00]) < plen + len + 4.
Proof.
  split; [reflexivity|].
  exact (Bytes_serialize_length [x61; x62] [x02; x61; x62; x00] eq_refl).
Defined.

Lemma remaining_advance (d : BytesIO) (k : nat) :
  remaining (advance d k) = drop k (remaining d).
Proof. unfold remaining, advance. cbn [buf pos]. now rewrite drop_drop. Qed.

Lemma take_length_take {A} (n : nat) (l : list A) :
  take (length (take n l)) l = take n l.
Proof. rewrite length_take. apply take_min_length. Qed.

(** X12: on every cursor, [Bytes.deserialize] returns a slice of the
    buffer: it skips at most 4 bytes of length prefix, returns the
    bytes that follow, fewer than 2^24 of them and never more than are
    left, and leaves the position just after the last byte returned;
    the buffer is the same. *)
Theorem Bytes_deserialize_slice (d : BytesIO) :
  exists bs d' skip,
    Bytes_deserialize d = (Ok bs, d') /\
    (skip <= 4)%nat /\
    bs = take (length bs) (drop skip (remaining d)) /\
    pos d' = (pos d + skip + length bs)%nat /\
    buf d' = buf d /\
    Z.of_nat (length bs) < 2 ^ 24.
Proof.
  unfold Bytes_deserialize, bind at 1. rewrite read_eq by lia.
  set (R := remaining d). set (s1 := Nat.min (Z.to_nat 1) (length R)).
  assert (Hs1 : (s1 <= 1)%nat) by (unfold s1; lia).
  set (fb := from_bytes (take (Z.to_nat 1) R) false).
  assert (Hfb : 0 <= fb) by apply from_bytes_le_range.
  unfold bind. destruct (Z.leb_spec fb 253) as [Hle|Hgt].
  - unfold ret. rewrite read_eq by assumption.
    rewrite remaining_advance. fold R.
    exists (take (Z.to_nat fb) (drop s1 R)),
      (advance (advance d s1) (Nat.min (Z.to_nat fb) (length (drop s1 R)))), s1.
    split; [reflexivity|]. split; [lia|].
    split; [now rewrite take_length_take|].
    split; [unfold advance; cbn [pos]; rewrite length_take; lia|].
    split; [reflexivity|].
    rewrite length_take. change (2 ^ 24) with 16777216. lia.
  - rewrite read_eq by lia. rewrite remaining_advance. fold R.
    set (s3 := Nat.min (Z.to_nat 3) (length (drop s1 R))).
    assert (Hs3 : (s3 <= 3)%nat) by (unfold s3; lia).
    unfold ret. set (n := from_bytes (take (Z.to_nat 3) (drop s1 R)) false).
    assert (Hn : 0 <= n < 16777216).
    { assert (Hr : 0 <= n < 2 ^ (8 * Z.of_nat (length (take (Z.to_nat 3) (drop s1 R)))))
        by apply from_bytes_le_range.
      assert (Hp : 2 ^ (8 * Z.of_nat (length (take (Z.to_nat 3) (drop s1 R)))) <= 2 ^ 24)
        by (apply Z.pow_le_mono_r; [lia | rewrite length_take; lia]).
      change (2 ^ 24) with 16777216 in Hp. lia. }
    rewrite read_eq by lia. rewrite !remaining_advance. fold R.
    rewrite drop_drop.
    exists (take (Z.to_nat n) (drop (s1 + s3) R)),
      (advance (advance (advance d s1) s3)
         (Nat.min (Z.to_nat n) (length (drop (s1 + s3) R)))), (s1 + s3)%nat.
    split; [reflexivity|]. split; [lia|].
    split; [now rewrite take_length_take|].
    split; [unfold advance; cbn [pos]; rewrite length_take; lia|].
    split; [reflexivity|].
    rewrite length_take. change (2 ^ 24) with 16777216. lia.
Qed.

(** ** Vectors: [serialize] and the round trip *)

Lemma ID_serialized : Int_serialize Int (mkTLObject ID) true = Ok [x15; xc4; xb5; x1c].
Proof. reflexivity. Qed.

Section VectorSerializeFacts.
Context {T S : Type}.
Variable ser : T -> S -> result bytes * S.

Lemma emits_length (items : list T) (s s' : S) (outs : list bytes) :
  emits ser items s outs s' -> length outs = length items.
Proof. induction 1; simpl; congruence. Qed.

(** The loop returns exactly when every item serializes, with the
    outputs appended to the accumulator in item order. *)
Lemma Vector_serialize_items_emits (items : list T) :
  forall (acc : bytes) (s : S) (out : bytes) (s' : S),
    Vector_serialize_items ser items acc s = (Ok out, s') <->
    exists outs, emits ser items s outs s' /\ out = acc ++ concat outs.
Proof.
  induction items as [|x items IH]; intros acc s out s'.
  - cbn [Vector_serialize_items]. split.
    + intros [= <- <-]. exists []. split; [constructor|]. cbn. now rewrite app_nil_r.
    + intros (outs & He & ->). inversion He; subst. cbn. now rewrite app_nil_r.
  - cbn [Vector_serialize_items].
    destruct (ser x s) as [[b|e] s1] eqn:Ex.
    + rewrite IH. split.
      * intros (outs & He & ->). exists (b :: outs). split.
        -- econstructor; eassumption.
        -- cbn [concat]. now rewrite app_assoc.
      * intros (outs & He & ->).
        inversion He as [|? ? ? b' s1' outs' ? Hx He']; subst.
        rewrite Ex in Hx. injection Hx as <- <-.
        exists outs'. split; [assumption|]. cbn [concat]. now rewrite app_assoc.
    + split; [discriminate|].
      intros (outs & He & _). inversion He as [|? ? ? b' s1' outs' ? Hx He']; subst.
      rewrite Ex in Hx. discriminate.
Qed.

Lemma count_serialized (n : nat) :
  Z.of_nat n < 2147483648 ->
  Int_serialize Int (mkTLObject (Z.of_nat n)) true = Ok (to_bytes_le (Z.of_nat n) 4).
Proof.
  intros H. unfold Int_serialize. cbn [value LENGTH].
  apply to_bytes_representable. unfold representable.
  change (2 ^ (8 * Z.of_nat 4 - 1)) with 2147483648. lia.
Qed.

Lemma count_overflow (n : nat) :
  2147483648 <= Z.of_nat n ->
  Int_serialize Int (mkTLObject (Z.of_nat n)) true = Raise OverflowError.
Proof.
  intros H. unfold Int_serialize. cbn [value LENGTH].
  apply to_bytes_unrepresentable; [lia|]. unfold representable.
  change (2 ^ (8 * Z.of_nat 4 - 1)) with 2147483648. lia.
Qed.

Lemma Vector_serialize_ok (items : list T) (s : S) :
  Z.of_nat (length items) < 2147483648 ->
  Vector_serialize ser (mkTLObject items) s =
  Vector_serialize_items ser items
    ([x15; xc4; xb5; x1c] ++ to_bytes_le (Z.of_nat (length items)) 4) s.
Proof.
  intros H. unfold Vector_serialize. rewrite ID_serialized. cbn [value].
  now rewrite count_serialized.
Qed.

(** X13: the layout of a serialized vector.  [Vector.serialize] returns
    exactly when the vector has fewer than 2^31 items and every item
    serializes; the output is then the constructor id 15 C4 B5 1C, the
    item count on four little-endian bytes, and the outputs of the
    items in order, with nothing between or after them. *)
Theorem Vector_serialize_layout (items : list T) (s s' : S) (out : bytes) :
  Vector_serialize ser (mkTLObject items) s = (Ok out, s') <->
  Z.of_nat (length items) < 2 ^ 31 /\
  exists outs,
    emits ser items s outs s' /\
    length outs = length items /\
    out = [x15; xc4; xb5; x1c] ++
          to_bytes_le (Z.of_nat (length items)) 4 ++ concat outs.
Proof.
  change (2 ^ 31) with 2147483648.
  destruct (Z_lt_le_dec (Z.of_nat (length items)) 2147483648) as [Hl|Hl].
  - rewrite Vector_serialize_ok by assumption.
    rewrite Vector_serialize_items_emits. split.
    + intros (outs & He & ->). split; [assumption|]. exists outs.
      split; [assumption|]. split; [now apply emits_length in He|].
      now rewrite <- app_assoc.
    + intros (_ & outs & He & _ & ->). exists outs. split; [assumption|].
      now rewrite <- app_assoc.
  - unfold Vector_serialize. rewrite ID_serialized. cbn [value].
    rewrite count_overflow by assumption. split; [discriminate | lia].
Qed.

(** X14: a vector of 2^31 items or more cannot be serialized: the
    count does not fit a signed 4-byte integer, [serialize] raises
    OverflowError, and no item has been serialized. *)
Theorem Vector_serialize_too_long (items : list T) (s : S) :
  2 ^ 31 <= Z.of_nat (length items) ->
  Vector_serialize ser (mkTLObject items) s = (Raise OverflowError, s).
Proof.
  change (2 ^ 31) with 2147483648. intros H.
  unfold Vector_serialize. rewrite ID_serialized. cbn [value].
  now rewrite count_overflow.
Qed.

Lemma Vector_loop_emits {A : Type} (deser : M A) (payload : T -> A) :
  reads_back ser deser payload ->
  forall items s outs s',
    emits ser items s outs s' ->
    forall acc before rest,
      Vector_loop deser (length items) acc (cursor_at before (concat outs ++ rest)) =
      (Ok (acc ++ map payload items), cursor_at (before ++ concat outs) rest).
Proof.
  intros Hrb items s outs s' He.
  induction He as [s0 | x items' s0 b s1 outs' s2 Hx He IH]; intros acc before rest.
  - cbn. unfold ret. now rewrite !app_nil_r.
  - cbn [length Vector_loop concat map]. unfold bind.
    rewrite <- app_assoc. rewrite (Hrb _ _ _ _ Hx). rewrite IH.
    now rewrite <- !app_assoc.
Qed.

Lemma Vector_deserialize_layout {A : Type} (deser : M A) (payload : T -> A)
    (items : list T) (s s' : S) (outs : list bytes) :
  reads_back ser deser payload ->
  Z.of_nat (length items) < 2147483648 ->
  emits ser items s outs s' ->
  forall before rest,
    Vector_deserialize deser
      (cursor_at before
         ((([x15; xc4; xb5; x1c] ++ to_bytes_le (Z.of_nat (length items)) 4)
           ++ concat outs) ++ rest)) =
    (Ok (map payload items),
     cursor_at
       (before ++ ([x15; xc4; xb5; x1c] ++ to_bytes_le (Z.of_nat (length items)) 4)
               ++ concat outs) rest).
Proof.
  intros Hrb Hl He before rest.
  set (n := Z.of_nat (length items)) in *.
  assert (Hc : from_bytes (to_bytes_le n 4) true = n).
  { apply from_bytes_to_bytes_le. unfold representable.
    change (2 ^ (8 * Z.of_nat 4 - 1)) with 2147483648. unfold n in *. lia. }
  cbn [to_bytes_le] in *. rewrite <- !app_assoc.
  rewrite Vector_deserialize_header, Hc. unfold n. rewrite Nat2Z.id.
  rewrite (Vector_loop_emits deser payload Hrb _ _ _ _ He). cbn [app].
  now rewrite <- !app_assoc.
Qed.

(** X15: vectors round-trip over any item class that does.  If what an
    item's [serialize] emits is read back by the element [deserialize]
    as the item's payload, then [Vector.deserialize] on the output of
    [Vector.serialize] returns the payloads of the items, in order, and
    stops just after the output. *)
Theorem Vector_roundtrip {A : Type} (deser : M A) (payload : T -> A)
    (items : list T) (s s' : S) (out : bytes) :
  reads_back ser deser payload ->
  Vector_serialize ser (mkTLObject items) s = (Ok out, s') ->
  forall before rest,
    Vector_deserialize deser (cursor_at before (out ++ rest)) =
    (Ok (map payload items), cursor_at (before ++ out) rest).
Proof.
  intros Hrb Hs before rest.
  assert (Hl : Z.of_nat (length items) < 2147483648).
  { destruct (Z_lt_le_dec (Z.of_nat (length items)) 2147483648) as [Hl|Hl];
      [exact Hl|].
    unfold Vector_serialize in Hs. rewrite ID_serialized in Hs. cbn [value] in Hs.
    rewrite count_overflow in Hs by assumption. discriminate. }
  rewrite Vector_serialize_ok in Hs by assumption.
  apply Vector_serialize_items_emits in Hs as (outs & He & ->).
  now apply (Vector_deserialize_layout deser payload items s s' outs).
Qed.
End VectorSerializeFacts.

Lemma Vector_serialize_too_long_witness :
  2 ^ 31 <= Z.of_nat (length (repeat (mkTLObject 0) (Z.to_nat 2147483648))) /\
  Vector_serialize (Int_item_serialize Int)
    (mkTLObject (repeat (mkTLObject 0) (Z.to_nat 2147483648))) tt =
  (Raise OverflowError, tt).
Proof.
  assert (H : 2 ^ 31 <= Z.of_nat (length (repeat (mkTLObject 0) (Z.to_nat 2147483648)))).
  { rewrite repeat_length, Z2Nat.id by lia. change (2 ^ 31) with 2147483648. lia. }
  split; [exact H|].
  exact (Vector_serialize_too_long (Int_item_serialize Int) _ tt H).
Defined.

Lemma Int_item_reads_back (cls : IntClass) :
  reads_back (Int_item_serialize cls) (Int_deserialize cls true) value.
Proof.
  intros [x] s bs s' H before rest. unfold Int_item_serialize in H.
  injection H as H _. cbn [value].
  pose proof (Int_serialize_ok_representable _ _ _ _ H) as Hr.
  unfold Int_serialize in H. cbn [value] in H.
  rewrite to_bytes_representable in H by assumption. injection H as <-.
  rewrite Int_deserialize_exact by apply length_to_bytes_le.
  now rewrite from_bytes_to_bytes_le.
Qed.

Lemma Vector_roundtrip_witness :
  let items := [mkTLObject 1; mkTLObject (-2); mkTLObject 5] in
  let out := [x15; xc4; xb5; x1c; x03; x00; x00; x00; x01; x00; x00; x00;
              xfe; xff; xff; xff; x05; x00; x00; x00] in
  reads_back (Int_item_serialize Int) (Int_deserialize Int true) value /\
  Vector_serialize (Int_item_serialize Int) (mkTLObject items) tt = (Ok out, tt) /\
  forall before rest,
    Vector_deserialize (Int_deserialize Int true) (cursor_at before (out ++ rest)) =
    (Ok (map value items), cursor_at (before ++ out) rest).
Proof.
  split; [apply Int_item_reads_back|]. split; [reflexivity|].
  exact (Vector_roundtrip (Int_item_serialize Int) (Int_deserialize Int true) value
           [mkTLObject 1; mkTLObject (-2); mkTLObject 5] tt tt _
           (Int_item_reads_back Int) eq_refl).
Defined.

(** ** Vectors of integers *)

Lemma Int_items_emit (cls : IntClass) (items : list (TLObject Z)) :
  Forall (fun item => representable (LENGTH cls) true (value item)) items ->
  emits (Int_item_serialize cls) items tt
    (map (fun item => to_bytes_le (value item) (LENGTH cls)) items) tt.
Proof.
  induction 1 as [|item items Hr _ IH]; [constructor|].
  cbn [map]. econstructor; [|exact IH].
  unfold Int_item_serialize, Int_serialize. now rewrite to_bytes_representable.
Qed.

Lemma length_concat_Int (cls : IntClass) (items : list (TLObject Z)) :
  length (concat (map (fun item => to_bytes_le (value item) (LENGTH cls)) items)) =
  (LENGTH cls * length items)%nat.
Proof.
  induction items as [|item items IH]; [cbn; lia|].
  cbn [map concat length]. rewrite length_app, length_to_bytes_le, IH. lia.
Qed.

(** X16: a vector of integer objects round-trips when it has fewer than
    2^31 items and every value is in the signed range of the class:
    [Vector.serialize] returns 8 + LENGTH * n bytes, and
    [Vector.deserialize] with that class returns the values in order
    and stops just after them. *)
Theorem Vector_of_Int_roundtrip (cls : IntClass) (items : list (TLObject Z)) :
  Z.of_nat (length items) < 2 ^ 31 ->
  Forall (fun item => representable (LENGTH cls) true (value item)) items ->
  exists out,
    Vector_serialize (Int_item_serialize cls) (mkTLObject items) tt = (Ok out, tt) /\
    length out = (8 + LENGTH cls * length items)%nat /\
    forall before rest,
      Vector_deserialize (Int_deserialize cls true) (cursor_at before (out ++ rest)) =
      (Ok (map value items), cursor_at (before ++ out) rest).
Proof.
  change (2 ^ 31) with 2147483648. intros Hl Hr.
  pose proof (Int_items_emit cls items Hr) as He.
  set (outs := map (fun item => to_bytes_le (value item) (LENGTH cls)) items) in *.
  set (out := ([x15; xc4; xb5; x1c] ++ to_bytes_le (Z.of_nat (length items)) 4)
              ++ concat outs).
  assert (Hs : Vector_serialize (Int_item_serialize cls) (mkTLObject items) tt =
               (Ok out, tt)).
  { rewrite Vector_serialize_ok by assumption.
    apply Vector_serialize_items_emits. exists outs. split; [exact He | reflexivity]. }
  exists out. split; [exact Hs|]. split.
  - unfold out. rewrite !length_app, length_to_bytes_le. unfold outs.
    rewrite length_concat_Int. reflexivity.
  - intros before rest. unfold out.
    now apply (Vector_deserialize_layout _ _ value items tt tt outs (Int_item_reads_back cls)).
Qed.

Lemma Vector_of_Int_roundtrip_witness :
  let items := [mkTLObject 1; mkTLObject (-2); mkTLObject 5] in
  Z.of_nat (length items) < 2 ^ 31 /\
  Forall (fun item => representable (LENGTH Long) true (value item)) items /\
  exists out,
    Vector_serialize (Int_item_serialize Long) (mkTLObject items) tt = (Ok out, tt) /\
    length out = (8 + LENGTH Long * length items)%nat /\
    forall before rest,
      Vector_deserialize (Int_deserialize Long true) (cursor_at before (out ++ rest)) =
      (Ok (map value items), cursor_at (before ++ out) rest).
Proof.
  assert (Hl : Z.of_nat (length [mkTLObject 1; mkTLObject (-2); mkTLObject 5]) < 2 ^ 31)
    by (vm_compute; reflexivity).
  assert (Hr : Forall (fun item => representable (LENGTH Long) true (value item))
                 [mkTLObject 1; mkTLObject (-2); mkTLObject 5])
    by (repeat constructor; vm_compute; discriminate).
  split; [exact Hl|]. split; [exact Hr|].
  exact (Vector_of_Int_roundtrip Long _ Hl Hr).
Defined.

Lemma to_bytes_raises_overflow (x : Z) (n : nat) (signed : bool) (e : exn) :
  to_bytes x n signed = Raise e -> e = OverflowError.
Proof.
  unfold to_bytes. destruct (if signed then _ else _); [discriminate|].
  now intros [= <-].
Qed.

(** X17: the vector serializes its items as signed.  If some integer
    item is outside the signed range of its class, even one that
    [serialize(signed=False)] would accept, [Vector.serialize] raises
    OverflowError. *)
Theorem Vector_of_Int_unsigned_item (cls : IntClass) (items : list (TLObject Z)) :
  Exists (fun item => ~ representable (LENGTH cls) true (value item)) items ->
  Vector_serialize (Int_item_serialize cls) (mkTLObject items) tt =
  (Raise OverflowError, tt).
Proof.
  intros Hex.
  destruct (Z_lt_le_dec (Z.of_nat (length items)) 2147483648) as [Hl|Hl].
  - rewrite Vector_serialize_ok by assumption.
    generalize ([x15; xc4; xb5; x1c] ++ to_bytes_le (Z.of_nat (length items)) 4).
    clear Hl. induction items as [|[x] items IH]; intros acc.
    + inversion Hex.
    + cbn [Vector_serialize_items]. unfold Int_item_serialize at 1.
      destruct (Int_serialize cls (mkTLObject x) true) as [b|e] eqn:E.
      * apply IH. inversion Hex as [? ? Hbad | ? ? Hrest]; subst; [|assumption].
        exfalso. apply Hbad. cbn [value].
        now apply Int_serialize_ok_representable in E.
      * unfold Int_serialize in E. apply to_bytes_raises_overflow in E. now subst.
  - unfold Vector_serialize. rewrite ID_serialized. cbn [value].
    now rewrite count_overflow.
Qed.

Lemma Vector_of_Int_unsigned_item_witness :
  let items := [mkTLObject 1; mkTLObject 4294967295] in
  Exists (fun item => ~ representable (LENGTH Int) true (value item)) items /\
  Int_serialize Int (mkTLObject 4294967295) false = Ok [xff; xff; xff; xff] /\
  Vector_serialize (Int_item_serialize Int) (mkTLObject items) tt =
  (Raise OverflowError, tt).
Proof.
  assert (H : Exists (fun item => ~ representable (LENGTH Int) true (value item))
                [mkTLObject 1; mkTLObject 4294967295]).
  { apply Exists_cons_tl, Exists_cons_hd. vm_compute. intros [_ H]. discriminate. }
  split; [exact H|]. split; [reflexivity|].
  exact (Vector_of_Int_unsigned_item Int _ H).
Defined.

(** ** Vectors of byte strings *)

Lemma Bytes_serialize_padded (payload : bytes) :
  let len := Z.of_nat (length payload) in
  len < 16777216 ->
  ((if len <=? 253 then 1 else 4) + len) mod 4 <> 0 ->
  exists prefix k,
    Bytes_serialize (mkTLObject payload) =
      Ok (prefix ++ payload ++ x00 :: repeat x00 k) /\
    length_prefix prefix len.
Proof.
  intros len Hl Hpad.
  destruct (Bytes_serialize_shape payload Hl) as (prefix & k & Hs & Hp & Hpl & Hk & Ha).
  fold len in Hpl, Hp. destruct k as [|k'].
  - exfalso. apply Hpad. rewrite <- Ha. f_equal.
    rewrite !length_app. cbn [repeat length].
    destruct (len <=? 253); rewrite Hpl; unfold len; lia.
  - exists prefix, k'. split; [exact Hs | exact Hp].
Qed.

Lemma Bytes_deserialize_on_zero (before rest : bytes) :
  Bytes_deserialize (cursor_at before (x00 :: rest)) =
  (Ok [], cursor_at (before ++ [x00]) rest).
Proof.
  rewrite Bytes_deserialize_short by (vm_compute; discriminate).
  change (Z_of_byte x00) with 0. rewrite read_cursor_at by lia.
  cbn [Z.to_nat take drop]. now rewrite app_nil_r.
Qed.

(** X18: a vector of byte strings does not round-trip in general.
    [Vector.deserialize] with the class [Bytes] reads the items back to
    back, but [Bytes.deserialize] leaves the padding of an item unread:
    when the first of two items needs padding, the second item is read
    from a padding byte and comes back as the empty byte string,
    whatever it was. *)
Theorem Vector_of_Bytes_second_item_lost (p q before rest : bytes) :
  let len := Z.of_nat (length p) in
  len < 16777216 ->
  Z.of_nat (length q) < 16777216 ->
  ((if len <=? 253 then 1 else 4) + len) mod 4 <> 0 ->
  exists out d',
    Vector_serialize Bytes_item_serialize
      (mkTLObject [mkTLObject p; mkTLObject q]) tt = (Ok out, tt) /\
    Vector_deserialize Bytes_deserialize (cursor_at before (out ++ rest)) =
      (Ok [p; []], d').
Proof.
  intros len Hp Hq Hpad.
  destruct (Bytes_serialize_padded p Hp Hpad) as (prefix & k & Sp & Lp).
  destruct (Bytes_serialize_shape q Hq) as (prefq & kq & Sq & _).
  set (oq := prefq ++ q ++ repeat x00 kq) in *.
  exists (([x15; xc4; xb5; x1c] ++ [x02; x00; x00; x00]) ++
          (prefix ++ p ++ x00 :: repeat x00 k) ++ oq).
  eexists. split.
  - rewrite Vector_serialize_ok by (cbn [length]; lia).
    cbn [Vector_serialize_items]. unfold Bytes_item_serialize.
    rewrite Sp, Sq. now rewrite <- !app_assoc.
  - rewrite <- !app_assoc. rewrite Vector_deserialize_header.
    change (Z.to_nat (from_bytes [x02; x00; x00; x00] true)) with 2%nat.
    cbn [Vector_loop]. unfold bind.
    rewrite Bytes_deserialize_prefixed by exact Lp.
    change ((x00 :: repeat x00 k) ++ oq ++ rest)
      with (x00 :: (repeat x00 k ++ oq ++ rest)).
    rewrite Bytes_deserialize_on_zero. unfold ret. reflexivity.
Qed.

Lemma Vector_of_Bytes_second_item_lost_witness :
  Z.of_nat (length [x61; x62]) < 16777216 /\
  Z.of_nat (length [x63; x64]) < 16777216 /\
  ((if Z.of_nat (length [x61; x62]) <=? 253 then 1 else 4)
   + Z.of_nat (length [x61; x62])) mod 4 <> 0 /\
  exists out d',
    Vector_serialize Bytes_item_serialize
      (mkTLObject [mkTLObject [x61; x62]; mkTLObject [x63; x64]]) tt = (Ok out, tt) /\
    Vector_deserialize Bytes_deserialize (cursor_at [] (out ++ [])) =
      (Ok [[x61; x62]; []], d').
Proof.
  assert (H1 : Z.of_nat (length [x61; x62]) < 16777216) by (vm_compute; reflexivity).
  assert (H2 : Z.of_nat (length [x63; x64]) < 16777216) by (vm_compute; reflexivity).
  assert (H3 : ((if Z.of_nat (length [x61; x62]) <=? 253 then 1 else 4)
                + Z.of_nat (length [x61; x62])) mod 4 <> 0)
    by (vm_compute; discriminate).
  split; [exact H1|]. split; [exact H2|]. split; [exact H3|].
  exact (Vector_of_Bytes_second_item_lost [x61; x62] [x63; x64] [] [] H1 H2 H3).
Defined.

(** ** Vectors: an element that raises *)

Lemma Vector_loop_after_calls {A : Type} (elem : M A) (k n : nat)
    (d dk : BytesIO) (items acc : list A) :
  calls elem k d items dk ->
  Vector_loop elem (k + n) acc d = Vector_loop elem n (acc ++ items) dk.
Proof.
  intros Hc. revert acc. induction Hc as [d0 | k' d0 a d1 items' dk' Ha Hc IH];
    intros acc.
  - cbn. now rewrite app_nil_r.
  - cbn [Nat.add Vector_loop]. unfold bind. rewrite Ha, IH.
    now rewrite <- app_assoc.
Qed.

(** X19: no partial vector.  If the element [deserialize] returns [k]
    times and raises at call k+1, with k below the count, then
    [Vector.deserialize] raises the same exception, returns none of the
    [k] values read, and leaves the cursor where the failing call left
    it. *)
Theorem Vector_deserialize_aborts {A : Type} (elem : M A)
    (before rest : bytes) (c0 c1 c2 c3 n0 n1 n2 n3 : byte)
    (k : nat) (items : list A) (dk dk' : BytesIO) (e : exn) :
  let d := cursor_at before ([c0; c1; c2; c3] ++ [n0; n1; n2; n3] ++ rest) in
  let body := cursor_at (before ++ [c0; c1; c2; c3] ++ [n0; n1; n2; n3]) rest in
  calls elem k body items dk ->
  elem dk = (Raise e, dk') ->
  Z.of_nat k < from_bytes [n0; n1; n2; n3] true ->
  Vector_deserialize elem d = (Raise e, dk').
Proof.
  intros d body Hc He Hk. unfold d. rewrite Vector_deserialize_header.
  fold body.
  replace (Z.to_nat (from_bytes [n0; n1; n2; n3] true))
    with (k + S (Z.to_nat (from_bytes [n0; n1; n2; n3] true) - S k))%nat by lia.
  rewrite (Vector_loop_after_calls elem _ _ _ _ _ _ Hc).
  now apply Vector_loop_raise.
Qed.

Lemma Vector_deserialize_aborts_witness :
  let hdr := [x15; xc4; xb5; x1c] ++ [x02; x00; x00; x00] in
  let one := [x00; x00; x00; x00; x00; x00; xf0; x3f] in
  let buffer := hdr ++ one ++ [x01; x02; x03] in
  calls Double_deserialize 1 (cursor_at hdr (one ++ [x01; x02; x03]))
    [mkFloat 0x3ff0000000000000] (mkBytesIO buffer 16) /\
  Double_deserialize (mkBytesIO buffer 16) = (Raise StructError, mkBytesIO buffer 19) /\
  Z.of_nat 1 < from_bytes [x02; x00; x00; x00] true /\
  Vector_deserialize Double_deserialize (mkBytesIO buffer 0) =
    (Raise StructError, mkBytesIO buffer 19).
Proof.
  assert (Hc : calls Double_deserialize 1
                 (cursor_at ([x15; xc4; xb5; x1c] ++ [x02; x00; x00; x00])
                    ([x00; x00; x00; x00; x00; x00; xf0; x3f] ++ [x01; x02; x03]))
                 [mkFloat 0x3ff0000000000000]
                 (mkBytesIO (([x15; xc4; xb5; x1c] ++ [x02; x00; x00; x00]) ++
                             [x00; x00; x00; x00; x00; x00; xf0; x3f] ++
                             [x01; x02; x03]) 16)).
  { econstructor; [reflexivity | constructor]. }
  assert (He : Double_deserialize
                 (mkBytesIO (([x15; xc4; xb5; x1c] ++ [x02; x00; x00; x00]) ++
                             [x00; x00; x00; x00; x00; x00; xf0; x3f] ++
                             [x01; x02; x03]) 16) =
               (Raise StructError,
                mkBytesIO (([x15; xc4; xb5; x1c] ++ [x02; x00; x00; x00]) ++
                           [x00; x00; x00; x00; x00; x00; xf0; x3f] ++
                           [x01; x02; x03]) 19)) by reflexivity.
  assert (Hk : Z.of_nat 1 < from_bytes [x02; x00; x00; x00] true) by reflexivity.
  split; [exact Hc|]. split; [exact He|]. split; [exact Hk|].
  exact (Vector_deserialize_aborts Double_deserialize []
           ([x00; x00; x00; x00; x00; x00; xf0; x3f] ++ [x01; x02; x03])
           x15 xc4 xb5 x1c x02 x00 x00 x00 1 _ _ _ _ Hc He Hk).
Defined.

(** ** Text strings: one [serialize] per object *)

Lemma String_serialize_run (h : store) (self : loc) (s : str) (b : bytes) :
  h !! self = Some (mkTLObject (VStr s)) ->
  encode_utf8 s = Ok b ->
  String_serialize self h =
  (Bytes_serialize (mkTLObject b), <[self := mkTLObject (VBytes b)]> h).
Proof.
  intros Hs He. unfold String_serialize. rewrite Hs. cbn [value]. now rewrite He.
Qed.

Lemma String_serialize_fresh (h : store) (l : loc) :
  fresh_text h l ->
  exists out b,
    String_serialize l h = (Ok out, <[l := mkTLObject (VBytes b)]> h).
Proof.
  intros (s & b & Hs & He & Hl).
  destruct (Bytes_serialize_shape b Hl) as (prefix & k & Hb & _).
  eexists _, b. rewrite (String_serialize_run h l s b Hs He), Hb. reflexivity.
Qed.

Lemma String_serialize_held (h : store) (l : loc) :
  holds_bytes h l -> String_serialize l h = (Raise AttributeError, h).
Proof. intros (b & Hb). unfold String_serialize. now rewrite Hb. Qed.

Lemma fresh_text_insert (h : store) (l l' : loc) (b : bytes) :
  l <> l' -> fresh_text h l' -> fresh_text (<[l := mkTLObject (VBytes b)]> h) l'.
Proof.
  intros Hne (s & b' & Hs & He & Hl). exists s, b'.
  rewrite lookup_insert_ne by assumption. auto.
Qed.

Lemma holds_bytes_insert (h : store) (l l' : loc) (b : bytes) :
  l = l' \/ holds_bytes h l' -> holds_bytes (<[l := mkTLObject (VBytes b)]> h) l'.
Proof.
  intros H. destruct (decide (l = l')) as [<-|Hne].
  - exists b. apply lookup_insert_eq.
  - destruct H as [H|(b' & H)]; [contradiction|].
    exists b'. now rewrite lookup_insert_ne.
Qed.

Lemma fresh_not_held (h : store) (l : loc) :
  fresh_text h l -> holds_bytes h l -> False.
Proof. intros (s & b & Hs & _) (b' & Hb). congruence. Qed.

(** Once an item holds bytes, the loop raises AttributeError. *)
Lemma String_items_held (items : list loc) :
  forall (acc : bytes) (h : store),
    (forall l, l ∈ items -> fresh_text h l \/ holds_bytes h l) ->
    (exists l, l ∈ items /\ holds_bytes h l) ->
    exists h',
      Vector_serialize_items String_serialize items acc h = (Raise AttributeError, h').
Proof.
  induction items as [|x items IH]; intros acc h Hall (l & Hin & Hl).
  - inversion Hin.
  - cbn [Vector_serialize_items].
    destruct (Hall x ltac:(left)) as [Hx|Hx].
    + destruct (String_serialize_fresh h x Hx) as (out & b & ->).
      apply IH.
      * intros l' Hl'. destruct (decide (x = l')) as [<-|Hne].
        -- right. apply holds_bytes_insert. now left.
        -- destruct (Hall l' ltac:(now right)) as [H|H].
           ++ left. now apply fresh_text_insert.
           ++ right. apply holds_bytes_insert. now right.
      * exists l. apply elem_of_cons in Hin as [->|Hin].
        -- exfalso. eapply fresh_not_held; eassumption.
        -- split; [assumption|]. apply holds_bytes_insert. now right.
    + rewrite String_serialize_held by assumption. eauto.
Qed.

(** Distinct fresh items all serialize, and hold bytes afterwards. *)
Lemma String_items_distinct (items : list loc) :
  forall (acc : bytes) (h : store),
    NoDup items ->
    (forall l, l ∈ items -> fresh_text h l) ->
    exists out h',
      Vector_serialize_items String_serialize items acc h = (Ok out, h') /\
      forall l, l ∈ items \/ holds_bytes h l -> holds_bytes h' l.
Proof.
  induction items as [|x items IH]; intros acc h Hnd Hall.
  - exists acc, h. split; [reflexivity|]. intros l [Hin|Hl]; [inversion Hin | exact Hl].
  - apply NoDup_cons in Hnd as [Hx Hnd]. cbn [Vector_serialize_items].
    destruct (String_serialize_fresh h x (Hall x ltac:(left))) as (out & b & ->).
    destruct (IH (acc ++ out) (<[x := mkTLObject (VBytes b)]> h) Hnd) as (o & h' & Hr & Hh).
    + intros l Hl. apply fresh_text_insert; [|apply Hall; now right].
      intros ->. contradiction.
    + exists o, h'. split; [exact Hr|].
      intros l [Hin|Hl].
      * apply elem_of_cons in Hin as [->|Hin].
        -- apply Hh. right. apply holds_bytes_insert. now left.
        -- apply Hh. now left.
      * apply Hh. right. apply holds_bytes_insert. now right.
Qed.

(** A fresh item that comes twice makes the loop raise AttributeError. *)
Lemma String_items_repeated (items : list loc) :
  forall (acc : bytes) (h : store),
    ~ NoDup items ->
    (forall l, l ∈ items -> fresh_text h l) ->
    exists h',
      Vector_serialize_items String_serialize items acc h = (Raise AttributeError, h').
Proof.
  induction items as [|x items IH]; intros acc h Hnd Hall.
  - exfalso. apply Hnd. constructor.
  - cbn [Vector_serialize_items].
    destruct (String_serialize_fresh h x (Hall x ltac:(left))) as (out & b & ->).
    destruct (decide (x ∈ items)) as [Hin|Hnin].
    + apply String_items_held.
      * intros l Hl. destruct (decide (x = l)) as [<-|Hne].
        -- right. apply holds_bytes_insert. now left.
        -- left. apply fresh_text_insert; [assumption | apply Hall; now right].
      * exists x. split; [assumption|]. apply holds_bytes_insert. now left.
    + apply IH.
      * intros H. apply Hnd. apply NoDup_cons. now split.
      * intros l Hl. apply fresh_text_insert; [|apply Hall; now right].
        intros ->. contradiction.
Qed.

(** X20: a [String] object can go into a vector only once.  For a
    vector of fewer than 2^31 [String] objects that all hold a text
    [serialize] accepts, [Vector.serialize] returns exactly when no
    object occurs twice, and every object then holds bytes; when an
    object occurs twice, its second [serialize] finds bytes instead of
    text and the call raises AttributeError. *)
Theorem Vector_of_String_once (items : list loc) (h : store) :
  Z.of_nat (length items) < 2 ^ 31 ->
  (forall l, l ∈ items -> fresh_text h l) ->
  exists h',
    (NoDup items /\
     (exists out,
         Vector_serialize String_serialize (mkTLObject items) h = (Ok out, h')) /\
     forall l, l ∈ items -> holds_bytes h' l) \/
    (~ NoDup items /\
     Vector_serialize String_serialize (mkTLObject items) h =
       (Raise AttributeError, h')).
Proof.
  change (2 ^ 31) with 2147483648. intros Hl Hall.
  rewrite Vector_serialize_ok by assumption.
  destruct (decide (NoDup items)) as [Hnd|Hnd].
  - destruct (String_items_distinct items
                ([x15; xc4; xb5; x1c] ++ to_bytes_le (Z.of_nat (length items)) 4)
                h Hnd Hall) as (out & h' & Hr & Hh).
    exists h'. left. split; [exact Hnd|]. split; [eauto|].
    intros l Hin. apply Hh. now left.
  - destruct (String_items_repeated items
                ([x15; xc4; xb5; x1c] ++ to_bytes_le (Z.of_nat (length items)) 4)
                h Hnd Hall) as (h' & Hr).
    exists h'. right. split; assumption.
Qed.

Lemma Vector_of_String_once_witness :
  let h : store := {[ 1%positive := mkTLObject (VStr [104; 105]) ]} in
  let items := [1%positive; 1%positive] in
  Z.of_nat (length items) < 2 ^ 31 /\
  (forall l, l ∈ items -> fresh_text h l) /\
  Vector_serialize String_serialize (mkTLObject items) h =
    (Raise AttributeError, <[1%positive := mkTLObject (VBytes [x68; x69])]> h) /\
  exists h',
    (NoDup items /\
     (exists out,
         Vector_serialize String_serialize (mkTLObject items) h = (Ok out, h')) /\
     forall l, l ∈ items -> holds_bytes h' l) \/
    (~ NoDup items /\
     Vector_serialize String_serialize (mkTLObject items) h =
       (Raise AttributeError, h')).
Proof.
  assert (Hl : Z.of_nat (length [1%positive; 1%positive]) < 2 ^ 31)
    by (vm_compute; reflexivity).
  assert (Hall : forall l, l ∈ [1%positive; 1%positive] ->
                 fresh_text {[ 1%positive := mkTLObject (VStr [104; 105]) ]} l).
  { intros l Hin. assert (l = 1%positive) as ->.
    { apply elem_of_cons in Hin as [->|Hin]; [reflexivity|].
      apply elem_of_cons in Hin as [->|Hin]; [reflexivity | inversion Hin]. }
    exists [104; 105], [x68; x69]. repeat split. }
  split; [exact Hl|]. split; [exact Hall|]. split; [reflexivity|].
  exact (Vector_of_String_once [1%positive; 1%positive]
           {[ 1%positive := mkTLObject (VStr [104; 105]) ]} Hl Hall).
Defined.

(** ** Text strings: failure after the write, and reading back *)

Lemma encode_utf8_repeat_a (n : nat) :
  encode_utf8 (repeat 97 n) = Ok (repeat x61 n).
Proof.
  induction n as [|n IH]; [reflexivity|].
  cbn [repeat encode_utf8]. rewrite IH. reflexivity.
Qed.

(** X21: [String.serialize] writes before it can fail.  When the UTF-8
    encoding of the text has 2^24 bytes or more, the call raises
    OverflowError (from the length prefix), and the object already
    holds the encoded bytes instead of the text. *)
Theorem String_serialize_overflow_after_write (h : store) (self : loc)
    (s : str) (b : bytes) :
  h !! self = Some (mkTLObject (VStr s)) ->
  encode_utf8 s = Ok b ->
  2 ^ 24 <= Z.of_nat (length b) ->
  String_serialize self h =
    (Raise OverflowError, <[self := mkTLObject (VBytes b)]> h) /\
  snd (String_serialize self h) !! self = Some (mkTLObject (VBytes b)).
Proof.
  change (2 ^ 24) with 16777216. intros Hs He Hl.
  rewrite (String_serialize_run h self s b Hs He).
  rewrite Bytes_serialize_overflow by assumption.
  split; [reflexivity|]. cbn [snd]. apply lookup_insert_eq.
Qed.

Lemma String_serialize_overflow_after_write_witness :
  let s := repeat 97 (Z.to_nat 16777216) in
  let b := repeat x61 (Z.to_nat 16777216) in
  let h : store := {[ 1%positive := mkTLObject (VStr s) ]} in
  String_serialize 1%positive h =
    (Raise OverflowError, <[1%positive := mkTLObject (VBytes b)]> h) /\
  snd (String_serialize 1%positive h) !! 1%positive = Some (mkTLObject (VBytes b)).
Proof.
  assert (Hl : 2 ^ 24 <= Z.of_nat (length (repeat x61 (Z.to_nat 16777216)))).
  { rewrite repeat_length, Z2Nat.id by lia. change (2 ^ 24) with 16777216. lia. }
  exact (String_serialize_overflow_after_write
           {[ 1%positive := mkTLObject (VStr (repeat 97 (Z.to_nat 16777216))) ]}
           1%positive (repeat 97 (Z.to_nat 16777216)) (repeat x61 (Z.to_nat 16777216))
           (lookup_singleton_eq _ _) (encode_utf8_repeat_a _) Hl).
Defined.

(** X22: text goes out and comes back through the two builtin codecs.
    For a [String] object holding a text whose UTF-8 encoding has fewer
    than 2^24 bytes, [serialize] returns a multiple of 4 bytes, and
    [String.deserialize] on them returns the decoding of that encoding,
    leaving the cursor inside the output (on its padding, if any). *)
Theorem String_serialize_deserialize (h : store) (self : loc) (s : str) (b : bytes) :
  h !! self = Some (mkTLObject (VStr s)) ->
  encode_utf8 s = Ok b ->
  Z.of_nat (length b) < 2 ^ 24 ->
  exists out,
    fst (String_serialize self h) = Ok out /\
    Z.of_nat (length out) mod 4 = 0 /\
    forall (decode_replace : bytes -> str) (before rest : bytes),
    exists d',
      String_deserialize decode_replace (cursor_at before (out ++ rest)) =
        (Ok (decode_replace b), d') /\
      (length before + length b < pos d' <= length before + length out)%nat.
Proof.
  change (2 ^ 24) with 16777216. intros Hs He Hl.
  destruct (Bytes_serialize_shape b Hl) as (prefix & k & Hb & Hp & Hpl & Hk & Ha).
  exists (prefix ++ b ++ repeat x00 k).
  split; [rewrite (String_serialize_run h self s b Hs He); exact Hb|].
  split; [exact Ha|].
  intros dec before rest.
  exists (cursor_at (before ++ prefix ++ b) (repeat x00 k ++ rest)).
  split.
  - unfold String_deserialize, bind. rewrite <- !app_assoc.
    rewrite Bytes_deserialize_prefixed by assumption. reflexivity.
  - unfold cursor_at. cbn [pos]. rewrite !length_app, repeat_length, Hpl.
    destruct (Z.of_nat (length b) <=? 253); lia.
Qed.

Lemma String_serialize_deserialize_witness :
  let h : store := {[ 1%positive := mkTLObject (VStr [104; 105]) ]} in
  encode_utf8 [104; 105] = Ok [x68; x69] /\
  Z.of_nat (length [x68; x69]) < 2 ^ 24 /\
  exists out,
    fst (String_serialize 1%positive h) = Ok out /\
    Z.of_nat (length out) mod 4 = 0 /\
    forall (decode_replace : bytes -> str) (before rest : bytes),
    exists d',
      String_deserialize decode_replace (cursor_at before (out ++ rest)) =
        (Ok (decode_replace [x68; x69]), d') /\
      (length before + length [x68; x69] < pos d'
       <= length before + length out)%nat.
Proof.
  assert (Hl : Z.of_nat (length [x68; x69]) < 2 ^ 24) by (vm_compute; reflexivity).
  split; [reflexivity|]. split; [exact Hl|].
  exact (String_serialize_deserialize
           {[ 1%positive := mkTLObject (VStr [104; 105]) ]} 1%positive
           [104; 105] [x68; x69] eq_refl eq_refl Hl).
Defined.

(** * Every decoder on every cursor, short ones included *)

Lemma advance_advance (d : BytesIO) (a b : nat) :
  advance (advance d a) b = advance d (a + b).
Proof. unfold advance. cbn [buf pos]. f_equal. lia. Qed.

Lemma drop_min_length {A} (k : nat) (l : list A) :
  drop (Nat.min k (length l)) l = drop k l.
Proof.
  destruct (Nat.le_ge_cases k (length l)) as [H|H].
  - now rewrite Nat.min_l.
  - rewrite Nat.min_r by assumption. now rewrite !drop_ge by lia.
Qed.

Lemma announced_bounds (left : bytes) :
  (fst (announced left) <= length left)%nat /\
  (fst (announced left) <= 4)%nat /\
  0 <= snd (announced left) < 16777216.
Proof.
  destruct left as [|b rest]; cbn [announced]; [cbn; lia|].
  pose proof (Z_of_byte_range b) as Hb.
  destruct (Z.leb_spec (Z_of_byte b) 253); cbn [fst snd length]; [lia|].
  pose proof (from_bytes_le_range (take 3 rest)) as Hr.
  assert (Hp : 2 ^ (8 * Z.of_nat (length (take 3 rest))) <= 2 ^ 24)
    by (apply Z.pow_le_mono_r; [lia | rewrite length_take; lia]).
  change (2 ^ 24) with 16777216 in Hp. lia.
Qed.

(** [Bytes.deserialize] on any cursor, in terms of the bytes left. *)
Lemma Bytes_deserialize_eq (d : BytesIO) :
  let left := remaining d in
  let got := take (Z.to_nat (snd (announced left))) (drop (fst (announced left)) left) in
  Bytes_deserialize d = (Ok got, advance d (fst (announced left) + length got)).
Proof.
  intros left got. subst got.
  destruct (remaining d) as [|b rest] eqn:E; subst left.
  - cbn [announced fst snd Z.to_nat drop take length Nat.add].
    rewrite advance_0. unfold Bytes_deserialize, bind.
    rewrite read_exhausted by assumption.
    change (from_bytes [] false) with 0. cbn [Z.leb Z.compare]. unfold ret.
    now apply read_exhausted.
  - unfold Bytes_deserialize, bind at 1. rewrite read_eq by lia. rewrite E.
    change (take (Z.to_nat 1) (b :: rest)) with [b].
    change (Nat.min (Z.to_nat 1) (length (b :: rest))) with 1%nat.
    rewrite from_bytes_unsigned, from_bytes_le_single.
    pose proof (Z_of_byte_range b) as Hb.
    cbn [announced]. unfold bind.
    destruct (Z.leb_spec (Z_of_byte b) 253) as [Hle|Hgt]; cbn [fst snd].
    + unfold ret. rewrite read_eq by lia.
      rewrite remaining_advance, E. cbn [drop].
      rewrite advance_advance, length_take. reflexivity.
    + rewrite read_eq by lia. rewrite remaining_advance, E. cbn [drop].
      change (Z.to_nat 3) with 3%nat. unfold ret. rewrite from_bytes_unsigned.
      rewrite read_eq by apply from_bytes_le_range.
      rewrite !remaining_advance, E. cbn [drop].
      rewrite !advance_advance, length_take.
      f_equal; unfold advance; f_equal; lia.
Qed.

(** [Vector.deserialize] on any cursor: the header reads take what is
    left of the first eight bytes, and the loop runs from there. *)
Lemma Vector_deserialize_eq {A : Type} (elem : M A) (d : BytesIO) :
  let left := remaining d in
  Vector_deserialize elem d =
  Vector_loop elem (Z.to_nat (from_bytes (take 4 (drop 4 left)) true)) []
    (advance d (Nat.min 8 (length left))).
Proof.
  intros left. unfold Vector_deserialize, bind.
  rewrite Int_deserialize_eq. rewrite Int_deserialize_eq.
  rewrite remaining_advance. fold left. cbn [LENGTH].
  rewrite drop_min_length, advance_advance, length_drop.
  replace (Nat.min 4 (length left) + Nat.min 4 (length left - 4))%nat
    with (Nat.min 8 (length left)) by lia.
  reflexivity.
Qed.

(** C1, as the code has it: no [deserialize] raises for want of bytes,
    except [Double.deserialize], and none reads outside the buffer.
    - With fewer than [LENGTH] bytes left, the integer classes consume
      what is left and return the integer these bytes encode; with
      fewer than 4 bytes left [Bool.deserialize] returns false; with
      fewer than 8 bytes left [Double.deserialize] raises
      [struct.error], what was left being consumed.
    - [Bytes.deserialize] returns on every cursor: it reads the length
      prefix from what is left ([announced]) and returns the [n] bytes
      that follow, or all that are left when they are fewer than [n],
      with the cursor just after them (at the end of the buffer in the
      second case). [String.deserialize] returns the decoding of these
      bytes.
    - [Vector.deserialize] reads a short header without raising: the
      count is the signed reading of what is present of the second four
      bytes; it calls the element class max(count, 0) times after the
      header and returns exactly when all these calls return.  With at
      most 4 bytes left it returns the empty list at the end of the
      buffer; over an element class that never raises it returns
      max(count, 0) elements; over one that stays inside the buffer it
      stays inside the buffer. *)
Theorem deserialize_short_cursor (d : BytesIO) :
  let left := remaining d in
  let at_end := advance d (length left) in
  let skip := fst (announced left) in
  let n := snd (announced left) in
  let got := take (Z.to_nat n) (drop skip left) in
  (forall cls signed,
      ((length left < LENGTH cls)%nat ->
       Int_deserialize cls signed d = (Ok (from_bytes left signed), at_end)) /\
      forward_in_bounds d (snd (Int_deserialize cls signed d))) /\
  (((length left < 8)%nat ->
    Double_deserialize d = (Raise StructError, at_end)) /\
   forward_in_bounds d (snd (Double_deserialize d))) /\
  (((length left < 4)%nat ->
    Bool_deserialize d = (Ok false, at_end)) /\
   forward_in_bounds d (snd (Bool_deserialize d))) /\
  (Bytes_deserialize d = (Ok got, advance d (skip + length got)) /\
   (forall decode_replace,
       String_deserialize decode_replace d =
       (Ok (decode_replace got), advance d (skip + length got))) /\
   0 <= n /\
   Z.of_nat (length got) <= n /\
   (skip + length got <= length left)%nat /\
   (Z.of_nat (length got) < n -> advance d (skip + length got) = at_end) /\
   forward_in_bounds d (advance d (skip + length got))) /\
  (forall (A : Type) (type_deserialize : M A),
      let count := from_bytes (take 4 (drop 4 left)) true in
      let body := advance d (Nat.min 8 (length left)) in
      (forall items d',
          Vector_deserialize type_deserialize d = (Ok items, d') <->
          calls type_deserialize (Z.to_nat count) body items d') /\
      ((length left <= 4)%nat ->
       Vector_deserialize type_deserialize d = (Ok [], at_end)) /\
      (never_raises type_deserialize ->
       exists items d',
         Vector_deserialize type_deserialize d = (Ok items, d') /\
         length items = Z.to_nat count) /\
      (stays_in_bounds type_deserialize ->
       forward_in_bounds d (snd (Vector_deserialize type_deserialize d)))) /\
  forward_in_bounds d at_end.
Proof.
  intros left at_end skip n got.
  assert (Hshort : forall cls signed,
             (length left < LENGTH cls)%nat ->
             Int_deserialize cls signed d = (Ok (from_bytes left signed), at_end)).
  { intros cls signed H. rewrite Int_deserialize_eq. fold left.
    rewrite take_ge by lia. rewrite Nat.min_r by lia. reflexivity. }
  destruct (announced_bounds left) as (Hs1 & _ & Hn). fold skip in Hs1. fold n in Hn.
  assert (Hg : length got = Nat.min (Z.to_nat n) (length left - skip))
    by (unfold got; now rewrite length_take, length_drop).
  assert (Hin : (skip + length got <= length left)%nat) by lia.
  split; [intros cls signed; split;
          [apply Hshort | apply Int_deserialize_stays_in_bounds]|].
  split.
  { split; [|apply Double_deserialize_stays_in_bounds].
    intros H. rewrite Double_deserialize_eq. fold left.
    rewrite take_ge by lia. rewrite Nat.min_r by lia.
    unfold struct_unpack_d. destruct (Nat.eqb_spec (length left) 8); [lia|].
    reflexivity. }
  split.
  { split; [|apply Bool_deserialize_stays_in_bounds].
    intros H. unfold Bool_deserialize, bind.
    rewrite (Hshort Int false) by exact H. unfold ret.
    rewrite from_bytes_unsigned.
    pose proof (from_bytes_le_below_3 left H) as Hb.
    destruct (Z.eqb_spec (from_bytes_le left) BOOL_TRUE) as [E|_]; [|reflexivity].
    unfold BOOL_TRUE in E. lia. }
  split.
  { split; [apply Bytes_deserialize_eq|].
    split; [intros dec; unfold String_deserialize, bind;
            rewrite Bytes_deserialize_eq; reflexivity|].
    split; [lia|]. split; [lia|]. split; [exact Hin|].
    split; [|apply advance_in_bounds; exact Hin].
    intros Hlt. unfold at_end. f_equal. lia. }
  split; [|apply advance_in_bounds; reflexivity].
  intros A elem count body.
  assert (Hiff : forall items d',
             Vector_deserialize elem d = (Ok items, d') <->
             calls elem (Z.to_nat count) body items d').
  { intros items d'. rewrite Vector_deserialize_eq. fold left. fold count. fold body.
    rewrite Vector_loop_calls. cbn [app]. split.
    - intros (new & -> & Hc). exact Hc.
    - intros Hc. eauto. }
  split; [exact Hiff|]. split.
  { intros H. rewrite Vector_deserialize_eq. fold left.
    rewrite (drop_ge left 4) by lia. cbn [take Vector_loop].
    change (Z.to_nat (from_bytes [] true)) with 0%nat. cbn [Vector_loop].
    unfold ret, at_end. rewrite Nat.min_r by lia. reflexivity. }
  split; [|intros Hsb; now apply Vector_deserialize_stays_in_bounds].
  intros Hnr. destruct (Vector_deserialize_never_raises elem Hnr d) as (items & d' & E).
  exists items, d'. split; [exact E|].
  apply Hiff in E. now apply calls_length in E.
Qed.

Lemma deserialize_short_cursor_witness :
  let d := mkBytesIO [x05; x61; x62] 0 in
  let v := mkBytesIO [x15; xc4; xb5; x1c; x02] 0 in
  (length (remaining d) < LENGTH Int)%nat /\
  (length (remaining d) < 8)%nat /\
  (length (remaining d) <= 4)%nat /\
  never_raises (Int_deserialize Int true) /\
  stays_in_bounds (Int_deserialize Int true) /\
  Z.of_nat (length [x61; x62]) < snd (announced (remaining d)) /\
  Int_deserialize Int true d = (Ok 6447365, mkBytesIO [x05; x61; x62] 3) /\
  Double_deserialize d = (Raise StructError, mkBytesIO [x05; x61; x62] 3) /\
  Bool_deserialize d = (Ok false, mkBytesIO [x05; x61; x62] 3) /\
  Bytes_deserialize d = (Ok [x61; x62], mkBytesIO [x05; x61; x62] 3) /\
  advance d (1 + length [x61; x62]) = advance d (length (remaining d)) /\
  (forall decode_replace,
      String_deserialize decode_replace d =
      (Ok (decode_replace [x61; x62]), mkBytesIO [x05; x61; x62] 3)) /\
  Vector_deserialize (Int_deserialize Int true) d =
    (Ok [], mkBytesIO [x05; x61; x62] 3) /\
  (exists items d',
      Vector_deserialize (Int_deserialize Int true) v = (Ok items, d') /\
      length items = 2%nat) /\
  forward_in_bounds v (snd (Vector_deserialize (Int_deserialize Int true) v)).
Proof.
  assert (H4 : (length (remaining (mkBytesIO [x05; x61; x62] 0)) < 4)%nat)
    by (simpl; lia).
  assert (H8 : (length (remaining (mkBytesIO [x05; x61; x62] 0)) < 8)%nat)
    by (simpl; lia).
  assert (Hle : (length (remaining (mkBytesIO [x05; x61; x62] 0)) <= 4)%nat)
    by (simpl; lia).
  assert (Hlt : Z.of_nat (length [x61; x62]) <
                snd (announced (remaining (mkBytesIO [x05; x61; x62] 0))))
    by reflexivity.
  pose proof (deserialize_short_cursor (mkBytesIO [x05; x61; x62] 0))
    as (Hi & (Hd & _) & (Hb & _) & (Hby & Hst & _ & _ & _ & Hend & _) & Hv & _).
  pose proof (deserialize_short_cursor (mkBytesIO [x15; xc4; xb5; x1c; x02] 0))
    as (_ & _ & _ & _ & Hv2 & _).
  destruct (Hv Z (Int_deserialize Int true)) as (_ & Hempty & _).
  destruct (Hv2 Z (Int_deserialize Int true)) as (_ & _ & Hnr & Hsb).
  split; [exact H4|]. split; [exact H8|]. split; [exact Hle|].
  split; [apply Int_deserialize_never_raises|].
  split; [apply Int_deserialize_stays_in_bounds|].
  split; [exact Hlt|].
  split; [exact (proj1 (Hi Int true) H4)|].
  split; [exact (Hd H8)|]. split; [exact (Hb H4)|].
  split; [exact Hby|]. split; [exact (Hend Hlt)|]. split; [exact Hst|].
  split; [exact (Hempty Hle)|].
  split; [exact (Hnr (Int_deserialize_never_raises Int true))|].
  exact (Hsb (Int_deserialize_stays_in_bounds Int true)).
Defined.
